(** * GameStateManager: the game-progression and persistence store

    A shallow embedding of [src/utils/GameStateManager.js] (class
    [GameStateManager]) and the properties of its mutation API, its
    achievement and ending evaluation, and its save/load path.

    Conventions of the embedding.
    - JavaScript numbers that the class treats as counters, levels and scores
      are integers ([Z]); the volume and speed settings, which are only
      stored, are rationals ([Q]).
    - A JavaScript object used as a record is a Rocq record; an object used
      as a dictionary ([characters], [unlocks], [flags]) is a [gmap]; an
      array is a [list] (order and duplicates are kept, [push] appends).
    - A property that the class creates on demand ([char.totalScore],
      [state.unlockedContent], [state.unlockedEndings]) has an [option] type:
      [None] is JavaScript's [undefined].
    - The tree is well-typed: a property of the template of
      [getInitialState] is there and has the type the template gives it
      (every character has its [equipment], the player its [statistics]).
      [unlocks] is a dictionary, so a category may be missing.
    - [Date.now()] and [Math.random()] are read from an explicit environment;
      the clock does not advance within one call.
    - [emit] and the [console] calls append to two traces kept in the store.
    - The class is written in place; every method becomes a function from
      the store before the call to the store after it.
    - Every object of the tree has [Object.prototype] as its prototype, as
      the objects of [getInitialState] and of [JSON.parse] have. The one
      call that would take it away, [setFlag('__proto__', null)], is
      embedded by what it does to the own properties (nothing); what
      [flags] inherits after it is not followed.

    After the class come its listeners ([on], [off], [emit]), the cache and
    the queries of [CSVManager], and the methods of the application
    (main.js) that validate the tables and save and load the game. *)

From stdpp Require Import gmap strings list fin_maps pretty.
From Stdlib Require Import ZArith QArith.

Local Open Scope string_scope.
Local Open Scope list_scope.
Local Open Scope Z_scope.

(** ** JavaScript values and helpers *)

(** Plain data stored in flags, passed as scene data or kept in the unlock
    lists. *)
Inductive Val : Type :=
  | VNull
  | VBool (b : bool)
  | VNum (n : Z)
  | VStr (s : string).

#[global] Instance Val_eq_dec : EqDecision Val.
Proof. solve_decision. Defined.

(** [Array.prototype.includes]. *)
Definition includes {A : Type} `{EqDecision A} (l : list A) (x : A) : bool :=
  bool_decide (x ∈ l).

(** [Array.prototype.push]. *)
Definition push {A : Type} (l : list A) (x : A) : list A := l ++ [x].

(** The names every plain object inherits from [Object.prototype]. *)
Definition ObjectPrototype : list string :=
  ["constructor"; "hasOwnProperty"; "isPrototypeOf"; "propertyIsEnumerable";
   "toLocaleString"; "toString"; "valueOf"; "__proto__";
   "__defineGetter__"; "__defineSetter__"; "__lookupGetter__";
   "__lookupSetter__"].

(** What reading a property of a dictionary of plain data gives: a value
    stored there, or the member of [Object.prototype] of that name (a
    function, or for [__proto__] the prototype itself). *)
Inductive Read : Type :=
  | Own (v : Val)
  | Inherited (name : string).

(** [dict[name]] on a plain object with the own properties [dict]; [None]
    is [undefined]. *)
Definition read (dict : gmap string Val) (name : string) : option Read :=
  match dict !! name with
  | Some v => Some (Own v)
  | None =>
      if includes ObjectPrototype name then Some (Inherited name) else None
  end.

(** [dict[name] = value]. An own property is written, and a name that is
    not yet an own property becomes one; but [__proto__] is an accessor of
    [Object.prototype], and its setter does nothing for a primitive value,
    so without an own property of that name the assignment stores
    nothing. *)
Definition assign (dict : gmap string Val) (name : string) (value : Val)
    : gmap string Val :=
  if bool_decide (name = "__proto__") && bool_decide (dict !! name = None)
  then dict
  else <[name := value]> dict.

(** [x || d] on a number: [0] is falsy. *)
Definition or_else (x d : Z) : Z := if x =? 0 then d else x.

(** [x || d] on a property that may be [undefined]. *)
Definition or_else_undef (x : option Z) (d : Z) : Z :=
  match x with
  | Some v => or_else v d
  | None => d
  end.

(** [{...base, ...over}] on one property: the later spread wins when it has
    the property. *)
Definition spread {A : Type} (base : A) (over : option A) : A :=
  match over with
  | Some v => v
  | None => base
  end.

(** The same on a property that the base may lack too. *)
Definition spread_opt {A : Type} (base over : option A) : option A :=
  match over with
  | Some v => Some v
  | None => base
  end.

(** The two values read from the outside world during a call. *)
Record Env : Type := mkEnv {
  now : Z;          (* Date.now() *)
  random : string   (* Math.random().toString(36).substr(2, 9) *)
}.

(** ** The state tree *)

Module Equipment.
Record t : Type := mk {
  level : Z;
  name : string
}.
Definition set_level (v : Z) (e : t) : t := mk v (name e).
Definition set_name (v : string) (e : t) : t := mk (level e) v.
End Equipment.

Module Character.
Record t : Type := mk {
  name : string;
  level : Z;
  hp : Z;
  maxHp : Z;
  intimacy : Z;
  battleCount : Z;
  victories : Z;
  equipment : Equipment.t;
  totalScore : option Z
}.

Definition set_intimacy (v : Z) (c : t) : t :=
  mk (name c) (level c) (hp c) (maxHp c) v (battleCount c) (victories c)
     (equipment c) (totalScore c).
Definition set_battleCount (v : Z) (c : t) : t :=
  mk (name c) (level c) (hp c) (maxHp c) (intimacy c) v (victories c)
     (equipment c) (totalScore c).
Definition set_victories (v : Z) (c : t) : t :=
  mk (name c) (level c) (hp c) (maxHp c) (intimacy c) (battleCount c) v
     (equipment c) (totalScore c).
Definition set_equipment (v : Equipment.t) (c : t) : t :=
  mk (name c) (level c) (hp c) (maxHp c) (intimacy c) (battleCount c)
     (victories c) v (totalScore c).
Definition set_totalScore (v : option Z) (c : t) : t :=
  mk (name c) (level c) (hp c) (maxHp c) (intimacy c) (battleCount c)
     (victories c) (equipment c) v.

(** The [updates] argument of [updateCharacter]: the properties it
    carries. *)
Record partial : Type := mkPartial {
  p_name : option string;
  p_level : option Z;
  p_hp : option Z;
  p_maxHp : option Z;
  p_intimacy : option Z;
  p_battleCount : option Z;
  p_victories : option Z;
  p_equipment : option Equipment.t;
  p_totalScore : option Z
}.

(** [{ ...c, ...updates }] *)
Definition merge (c : t) (u : partial) : t :=
  mk (spread (name c) (p_name u)) (spread (level c) (p_level u))
     (spread (hp c) (p_hp u)) (spread (maxHp c) (p_maxHp u))
     (spread (intimacy c) (p_intimacy u))
     (spread (battleCount c) (p_battleCount u))
     (spread (victories c) (p_victories u))
     (spread (equipment c) (p_equipment u))
     (spread_opt (totalScore c) (p_totalScore u)).
End Character.

Module Statistics.
Record t : Type := mk {
  gamesPlayed : Z;
  gamesWon : Z;
  totalTilesCleared : Z;
  maxCombo : Z;
  perfectGames : Z
}.
Definition set_gamesPlayed (v : Z) (s : t) : t :=
  mk v (gamesWon s) (totalTilesCleared s) (maxCombo s) (perfectGames s).
Definition set_gamesWon (v : Z) (s : t) : t :=
  mk (gamesPlayed s) v (totalTilesCleared s) (maxCombo s) (perfectGames s).
Definition set_totalTilesCleared (v : Z) (s : t) : t :=
  mk (gamesPlayed s) (gamesWon s) v (maxCombo s) (perfectGames s).
Definition set_maxCombo (v : Z) (s : t) : t :=
  mk (gamesPlayed s) (gamesWon s) (totalTilesCleared s) v (perfectGames s).
Definition set_perfectGames (v : Z) (s : t) : t :=
  mk (gamesPlayed s) (gamesWon s) (totalTilesCleared s) (maxCombo s) v.
End Statistics.

Module Player.
Record t : Type := mk {
  name : string;
  level : Z;
  totalScore : Z;
  totalPlayTime : Z;
  achievements : list string;
  statistics : Statistics.t
}.
Definition set_totalScore (v : Z) (p : t) : t :=
  mk (name p) (level p) v (totalPlayTime p) (achievements p) (statistics p).
Definition set_totalPlayTime (v : Z) (p : t) : t :=
  mk (name p) (level p) (totalScore p) v (achievements p) (statistics p).
Definition set_statistics (v : Statistics.t) (p : t) : t :=
  mk (name p) (level p) (totalScore p) (totalPlayTime p) (achievements p) v.
End Player.

Module Settings.
Record t : Type := mk {
  bgmVolume : Q;
  seVolume : Q;
  voiceVolume : Q;
  textSpeed : Q;
  autoMode : bool;
  fullscreen : bool;
  language : string
}.

(** The argument of [updateSettings]. *)
Record partial : Type := mkPartial {
  p_bgmVolume : option Q;
  p_seVolume : option Q;
  p_voiceVolume : option Q;
  p_textSpeed : option Q;
  p_autoMode : option bool;
  p_fullscreen : option bool;
  p_language : option string
}.

(** [{ ...s, ...settings }] *)
Definition merge (s : t) (u : partial) : t :=
  mk (spread (bgmVolume s) (p_bgmVolume u))
     (spread (seVolume s) (p_seVolume u))
     (spread (voiceVolume s) (p_voiceVolume u))
     (spread (textSpeed s) (p_textSpeed u))
     (spread (autoMode s) (p_autoMode u))
     (spread (fullscreen s) (p_fullscreen u))
     (spread (language s) (p_language u)).
End Settings.

Module State.
(** [this.state]. The first fifteen properties are those of the template
    returned by [getInitialState]; the last two are created on demand by
    the second [unlock] and by [unlockEnding]. *)
Record t : Type := mk {
  version : string;
  playerId : string;
  createdAt : Z;
  lastPlayedAt : Z;
  currentScene : string;
  currentCharacter : Val;
  currentDialogue : Z;
  completedScenes : list string;
  characters : gmap Z Character.t;
  player : Player.t;
  settings : Settings.t;
  unlocks : gmap string (list Val);
  currentGame : Val;
  flags : gmap string Val;
  hasUnsavedProgress : bool;
  unlockedContent : option (list Val);
  unlockedEndings : option (list Val)
}.

Definition set_playerId (v : string) (s : t) : t :=
  mk (version s) v (createdAt s) (lastPlayedAt s) (currentScene s)
     (currentCharacter s) (currentDialogue s) (completedScenes s)
     (characters s) (player s) (settings s) (unlocks s) (currentGame s)
     (flags s) (hasUnsavedProgress s) (unlockedContent s)
     (unlockedEndings s).
Definition set_lastPlayedAt (v : Z) (s : t) : t :=
  mk (version s) (playerId s) (createdAt s) v (currentScene s)
     (currentCharacter s) (currentDialogue s) (completedScenes s)
     (characters s) (player s) (settings s) (unlocks s) (currentGame s)
     (flags s) (hasUnsavedProgress s) (unlockedContent s)
     (unlockedEndings s).
Definition set_currentScene (v : string) (s : t) : t :=
  mk (version s) (playerId s) (createdAt s) (lastPlayedAt s) v
     (currentCharacter s) (currentDialogue s) (completedScenes s)
     (characters s) (player s) (settings s) (unlocks s) (currentGame s)
     (flags s) (hasUnsavedProgress s) (unlockedContent s)
     (unlockedEndings s).
Definition set_completedScenes (v : list string) (s : t) : t :=
  mk (version s) (playerId s) (createdAt s) (lastPlayedAt s)
     (currentScene s) (currentCharacter s) (currentDialogue s) v
     (characters s) (player s) (settings s) (unlocks s) (currentGame s)
     (flags s) (hasUnsavedProgress s) (unlockedContent s)
     (unlockedEndings s).
Definition set_characters (v : gmap Z Character.t) (s : t) : t :=
  mk (version s) (playerId s) (createdAt s) (lastPlayedAt s)
     (currentScene s) (currentCharacter s) (currentDialogue s)
     (completedScenes s) v (player s) (settings s) (unlocks s)
     (currentGame s) (flags s) (hasUnsavedProgress s) (unlockedContent s)
     (unlockedEndings s).
Definition set_player (v : Player.t) (s : t) : t :=
  mk (version s) (playerId s) (createdAt s) (lastPlayedAt s)
     (currentScene s) (currentCharacter s) (currentDialogue s)
     (completedScenes s) (characters s) v (settings s) (unlocks s)
     (currentGame s) (flags s) (hasUnsavedProgress s) (unlockedContent s)
     (unlockedEndings s).
Definition set_settings (v : Settings.t) (s : t) : t :=
  mk (version s) (playerId s) (createdAt s) (lastPlayedAt s)
     (currentScene s) (currentCharacter s) (currentDialogue s)
     (completedScenes s) (characters s) (player s) v (unlocks s)
     (currentGame s) (flags s) (hasUnsavedProgress s) (unlockedContent s)
     (unlockedEndings s).
Definition set_unlocks (v : gmap string (list Val)) (s : t) : t :=
  mk (version s) (playerId s) (createdAt s) (lastPlayedAt s)
     (currentScene s) (currentCharacter s) (currentDialogue s)
     (completedScenes s) (characters s) (player s) (settings s) v
     (currentGame s) (flags s) (hasUnsavedProgress s) (unlockedContent s)
     (unlockedEndings s).
Definition set_flags (v : gmap string Val) (s : t) : t :=
  mk (version s) (playerId s) (createdAt s) (lastPlayedAt s)
     (currentScene s) (currentCharacter s) (currentDialogue s)
     (completedScenes s) (characters s) (player s) (settings s)
     (unlocks s) (currentGame s) v (hasUnsavedProgress s)
     (unlockedContent s) (unlockedEndings s).
Definition set_hasUnsavedProgress (v : bool) (s : t) : t :=
  mk (version s) (playerId s) (createdAt s) (lastPlayedAt s)
     (currentScene s) (currentCharacter s) (currentDialogue s)
     (completedScenes s) (characters s) (player s) (settings s)
     (unlocks s) (currentGame s) (flags s) v (unlockedContent s)
     (unlockedEndings s).
Definition set_unlockedContent (v : option (list Val)) (s : t) : t :=
  mk (version s) (playerId s) (createdAt s) (lastPlayedAt s)
     (currentScene s) (currentCharacter s) (currentDialogue s)
     (completedScenes s) (characters s) (player s) (settings s)
     (unlocks s) (currentGame s) (flags s) (hasUnsavedProgress s) v
     (unlockedEndings s).
Definition set_unlockedEndings (v : option (list Val)) (s : t) : t :=
  mk (version s) (playerId s) (createdAt s) (lastPlayedAt s)
     (currentScene s) (currentCharacter s) (currentDialogue s)
     (completedScenes s) (characters s) (player s) (settings s)
     (unlocks s) (currentGame s) (flags s) (hasUnsavedProgress s)
     (unlockedContent s) v.
End State.

(** A saved object as [loadState] receives it: any top-level property may
    be missing (a snapshot written by an older version), and a property that
    is there has the type the class expects. Properties the class never
    reads are left out. *)
Module Snapshot.
Record t : Type := mk {
  version : option string;
  playerId : option string;
  createdAt : option Z;
  lastPlayedAt : option Z;
  currentScene : option string;
  currentCharacter : option Val;
  currentDialogue : option Z;
  completedScenes : option (list string);
  characters : option (gmap Z Character.t);
  player : option Player.t;
  settings : option Settings.t;
  unlocks : option (gmap string (list Val));
  currentGame : option Val;
  flags : option (gmap string Val);
  hasUnsavedProgress : option bool;
  unlockedContent : option (list Val);
  unlockedEndings : option (list Val)
}.

(** The object without any of these properties. *)
Definition empty : t :=
  mk None None None None None None None None None None None None None None
     None None None.

(** The own properties of a live tree. *)
Definition of_state (s : State.t) : t :=
  mk (Some (State.version s)) (Some (State.playerId s))
     (Some (State.createdAt s)) (Some (State.lastPlayedAt s))
     (Some (State.currentScene s)) (Some (State.currentCharacter s))
     (Some (State.currentDialogue s)) (Some (State.completedScenes s))
     (Some (State.characters s)) (Some (State.player s))
     (Some (State.settings s)) (Some (State.unlocks s))
     (Some (State.currentGame s)) (Some (State.flags s))
     (Some (State.hasUnsavedProgress s)) (State.unlockedContent s)
     (State.unlockedEndings s).

(** [{ ...base, ...over }] with a live tree as the base. *)
Definition overlay (base : State.t) (over : t) : State.t :=
  State.mk
    (spread (State.version base) (version over))
    (spread (State.playerId base) (playerId over))
    (spread (State.createdAt base) (createdAt over))
    (spread (State.lastPlayedAt base) (lastPlayedAt over))
    (spread (State.currentScene base) (currentScene over))
    (spread (State.currentCharacter base) (currentCharacter over))
    (spread (State.currentDialogue base) (currentDialogue over))
    (spread (State.completedScenes base) (completedScenes over))
    (spread (State.characters base) (characters over))
    (spread (State.player base) (player over))
    (spread (State.settings base) (settings over))
    (spread (State.unlocks base) (unlocks over))
    (spread (State.currentGame base) (currentGame over))
    (spread (State.flags base) (flags over))
    (spread (State.hasUnsavedProgress base) (hasUnsavedProgress over))
    (spread_opt (State.unlockedContent base) (unlockedContent over))
    (spread_opt (State.unlockedEndings base) (unlockedEndings over)).
End Snapshot.

(** ** Events, diagnostics and the store *)

(** The argument of [recordVictory]. *)
Record GameData : Type := mkGameData {
  tilesCleared : option Z;
  combo : option Z;
  perfect : bool
}.

(** One constructor per event name passed to [emit], with its payload. *)
Inductive Event : Type :=
  | stateLoaded (state : State.t)
  | sceneChanged (previous current : string) (data : Val)
  | characterUpdated (charId : Z) (oldState newState : Character.t)
  | equipmentUpgraded (charId : Z) (oldLevel newLevel : Z)
      (equipmentName : string)
  | scoreUpdated (points totalScore : Z)
  | victoryRecorded (charId : Z) (gameData : GameData)
  | defeatRecorded (charId : Z)
  | intimacyChanged (charId : Z) (oldValue newValue : Z)
  | flagChanged (flagName : string) (oldValue : option Read) (newValue : Val)
  | unlocked (category : string) (item : Val)
  | settingsChanged (settings : Settings.t)
  | gameReset.

(** What a failing property access throws. *)
Inductive Exception : Type :=
  | TypeError (reading : string).

Inductive Level : Type := LevelLog | LevelWarn | LevelError.

(** The texts the class writes to the console, by their content. *)
Inductive Message : Type :=
  | MsgVersionMismatch
  | MsgStateLoaded
  | MsgLoadFailed (error : Exception)
  | MsgMigrating
  | MsgSceneChanged (previous current : string)
  | MsgCharacterNotFound (charId : Z)
  | MsgEquipmentUpgraded (name : string) (oldLevel newLevel : Z)
  | MsgUnlocked (category : string) (item : Val)
  | MsgGameReset.

(** The instance: [this.state], [this.lastSaveTime], and the two traces.
    [this.listeners] holds callbacks of the collaborators; [emit] runs each
    of them inside [try]/[catch], so none of them can abort a method. The
    embedding records the emission and treats the listeners as observers. *)
Record Store : Type := mkStore {
  state : State.t;
  emitted : list Event;
  console : list (Level * Message);
  lastSaveTime : Z
}.

Definition autoSaveInterval : Z := 30000.

Definition with_state (f : State.t -> State.t) (st : Store) : Store :=
  mkStore (f (state st)) (emitted st) (console st) (lastSaveTime st).

Definition emit (e : Event) (st : Store) : Store :=
  mkStore (state st) (push (emitted st) e) (console st) (lastSaveTime st).

Definition report (l : Level) (m : Message) (st : Store) : Store :=
  mkStore (state st) (emitted st) (push (console st) (l, m)) (lastSaveTime st).

(** How a method ends: it returns a value, or it throws. Either way the
    store is what the method left behind. *)
Inductive Completion (A : Type) : Type :=
  | Normal (a : A) (st : Store)
  | Throw (e : Exception) (st : Store).
Arguments Normal {A} a st.
Arguments Throw {A} e st.

Definition store_of {A : Type} (c : Completion A) : Store :=
  match c with
  | Normal _ st => st
  | Throw _ st => st
  end.

Definition bind {A B : Type} (c : Completion A)
    (k : A -> Store -> Completion B) : Completion B :=
  match c with
  | Normal a st => k a st
  | Throw e st => Throw e st
  end.

(** ** Construction *)

Definition generatePlayerId (env : Env) : string :=
  "player_" +:+ random env +:+ "_" +:+ pretty (now env).

Definition initialCharacters : gmap Z Character.t :=
  <[1 := Character.mk "天野美咲" 1 100 100 0 0 0
           (Equipment.mk 1 "基礎装備") None]>
  (<[2 := Character.mk "氷室玲奈" 1 120 120 0 0 0
            (Equipment.mk 1 "制服") None]>
  (<[3 := Character.mk "紅月妖" 1 150 150 0 0 0
            (Equipment.mk 1 "生徒会服") None]> ∅)).

Definition initialUnlocks : gmap string (list Val) :=
  <["characters" := [VNum 1]]>
  (<["scenes" := [VStr "title"; VStr "scene_1"]]>
  (<["endings" := []]>
  (<["gallery" := []]>
  (<["achievements" := []]> ∅)))).

Definition getInitialState (env : Env) : State.t :=
  State.mk "1.0.0" (generatePlayerId env) (now env) (now env)
    "title" VNull 0 []
    initialCharacters
    (Player.mk "主人公" 1 0 0 [] (Statistics.mk 0 0 0 0 0))
    (Settings.mk (7 # 10)%Q (8 # 10)%Q (8 # 10)%Q 1%Q false false "ja")
    initialUnlocks
    VNull ∅ false None None.

(** [new GameStateManager()] *)
Definition constructor (env : Env) : Store :=
  mkStore (getInitialState env) [] [] 0.

(** ** Marking and events *)

Definition markUnsaved (env : Env) (st : Store) : Store :=
  with_state (fun s =>
    State.set_lastPlayedAt (now env) (State.set_hasUnsavedProgress true s)) st.

Definition hasUnsavedProgress (st : Store) : bool :=
  State.hasUnsavedProgress (state st).

Definition markSaved (env : Env) (st : Store) : Store :=
  mkStore (State.set_hasUnsavedProgress false (state st)) (emitted st)
    (console st) (now env).

(** ** Scene, character, equipment, score *)

(** A string is truthy unless it is empty. *)
Definition truthy (s : string) : bool := negb (String.eqb s "").

Definition changeScene (env : Env) (sceneName : string) (data : Val)
    (st : Store) : Store :=
  let previousScene := State.currentScene (state st) in
  let st := with_state (State.set_currentScene sceneName) st in
  let st := with_state (State.set_lastPlayedAt (now env)) st in
  let st :=
    if truthy previousScene
       && negb (includes (State.completedScenes (state st)) previousScene)
    then with_state (fun s =>
           State.set_completedScenes
             (push (State.completedScenes s) previousScene) s) st
    else st in
  let st := markUnsaved env st in
  let st := emit (sceneChanged previousScene sceneName data) st in
  report LevelLog (MsgSceneChanged previousScene sceneName) st.

Definition updateCharacter (env : Env) (charId : Z)
    (updates : Character.partial) (st : Store) : Store :=
  match State.characters (state st) !! charId with
  | None => report LevelWarn (MsgCharacterNotFound charId) st
  | Some char =>
      let oldState := char in
      let newState := Character.merge char updates in
      let st := with_state (fun s =>
        State.set_characters (<[charId := newState]> (State.characters s)) s)
        st in
      let st := markUnsaved env st in
      emit (characterUpdated charId oldState newState) st
  end.

(** Its body in the source is two comments. *)
Definition applyEquipmentBonuses (charId : Z) (level : Z) (st : Store)
    : Store := st.

Definition upgradeEquipment (env : Env) (charId : Z) (newLevel : Z)
    (equipmentName : string) (st : Store) : Store :=
  match State.characters (state st) !! charId with
  | None => st
  | Some char =>
      let oldLevel := Equipment.level (Character.equipment char) in
      let char' :=
        Character.set_equipment
          (Equipment.set_name equipmentName
             (Equipment.set_level newLevel (Character.equipment char)))
          char in
      let st := with_state (fun s =>
        State.set_characters (<[charId := char']> (State.characters s)) s)
        st in
      let st := applyEquipmentBonuses charId newLevel st in
      let st := markUnsaved env st in
      let st := emit (equipmentUpgraded charId oldLevel newLevel equipmentName)
                  st in
      report LevelLog
        (MsgEquipmentUpgraded (Character.name char') oldLevel newLevel) st
  end.

Definition updateScore (env : Env) (points : Z) (st : Store) : Store :=
  let st := with_state (fun s =>
    let p := State.player s in
    let p := Player.set_totalScore (Player.totalScore p + points) p in
    let p := Player.set_statistics
               (Statistics.set_gamesPlayed
                  (Statistics.gamesPlayed (Player.statistics p) + 1)
                  (Player.statistics p)) p in
    State.set_player p s) st in
  let st := markUnsaved env st in
  emit (scoreUpdated points (Player.totalScore (State.player (state st)))) st.

Definition recordDefeat (env : Env) (charId : Z) (st : Store) : Store :=
  let st :=
    match State.characters (state st) !! charId with
    | Some char =>
        with_state (fun s =>
          State.set_characters
            (<[charId := Character.set_battleCount
                           (Character.battleCount char + 1) char]>
               (State.characters s)) s) st
    | None => st
    end in
  let st := markUnsaved env st in
  emit (defeatRecorded charId) st.

(** ** Intimacy *)

Definition updateIntimacy (env : Env) (charId : Z) (change : Z) (st : Store)
    : Store :=
  match State.characters (state st) !! charId with
  | None => st
  | Some char =>
      let oldIntimacy := Character.intimacy char in
      let char' :=
        Character.set_intimacy
          (Z.max 0 (Z.min 100 (oldIntimacy + change))) char in
      let st := with_state (fun s =>
        State.set_characters (<[charId := char']> (State.characters s)) s)
        st in
      let st := markUnsaved env st in
      emit (intimacyChanged charId oldIntimacy (Character.intimacy char')) st
  end.

Definition getIntimacy (characterId : Z) (st : Store) : Z :=
  match State.characters (state st) !! characterId with
  | Some char => or_else (Character.intimacy char) 0
  | None => 0
  end.

Definition increaseIntimacy (env : Env) (characterId : Z) (amount : Z)
    (st : Store) : Store :=
  match State.characters (state st) !! characterId with
  | Some char =>
      let char' :=
        Character.set_intimacy
          (Z.min 100 (or_else (Character.intimacy char) 0 + amount)) char in
      let st := with_state (fun s =>
        State.set_characters (<[characterId := char']> (State.characters s))
          s) st in
      markUnsaved env st
  | None => st
  end.

(** ** Flags *)

(** [this.state.flags] is a plain object: a name that is no own property
    is looked up in [Object.prototype]. *)
Definition setFlag (env : Env) (flagName : string) (value : Val) (st : Store)
    : Store :=
  let oldValue := read (State.flags (state st)) flagName in
  let st := with_state (fun s =>
    State.set_flags (assign (State.flags s) flagName value) s) st in
  let st := markUnsaved env st in
  emit (flagChanged flagName oldValue value) st.

Definition getFlag (flagName : string) (defaultValue : Val) (st : Store)
    : Read :=
  match read (State.flags (state st)) flagName with
  | Some v => v
  | None => Own defaultValue
  end.

(** ** Unlocks

    The class body defines [unlock] twice. A class body is evaluated top to
    bottom and a later method of the same name replaces the earlier one on
    the prototype, so [this.unlock] is the second definition everywhere,
    also inside methods written before it. Both bodies are embedded. *)

(** The first definition, [unlock(category, item)]: replaced, never run. *)
Definition unlock_shadowed (env : Env) (category : string) (item : Val)
    (st : Store) : Store :=
  let st :=
    match State.unlocks (state st) !! category with
    | None => with_state (fun s =>
                State.set_unlocks (<[category := []]> (State.unlocks s)) s) st
    | Some _ => st
    end in
  let items := default [] (State.unlocks (state st) !! category) in
  if negb (includes items item) then
    let st := with_state (fun s =>
      State.set_unlocks (<[category := push items item]> (State.unlocks s)) s)
      st in
    let st := markUnsaved env st in
    let st := emit (unlocked category item) st in
    report LevelLog (MsgUnlocked category item) st
  else st.

(** The second definition, [unlock(content)]: the method of the class. *)
Definition unlock (env : Env) (content : Val) (st : Store) : Store :=
  let st :=
    match State.unlockedContent (state st) with
    | None => with_state (State.set_unlockedContent (Some [])) st
    | Some _ => st
    end in
  let items := default [] (State.unlockedContent (state st)) in
  if negb (includes items content) then
    let st := with_state
                (State.set_unlockedContent (Some (push items content))) st in
    markUnsaved env st
  else st.

(** A call [this.unlock(category, item)]: the method has one parameter,
    [content], which receives the first argument; the second is dropped. *)
Definition call_unlock (env : Env) (category : string) (item : Val)
    (st : Store) : Store :=
  unlock env (VStr category) st.

Definition isUnlocked (category : string) (item : Val) (st : Store) : bool :=
  match State.unlocks (state st) !! category with
  | Some items => includes items item
  | None => false
  end.

Definition unlockEnding (env : Env) (endingType : Val) (st : Store) : Store :=
  let st :=
    match State.unlockedEndings (state st) with
    | None => with_state (State.set_unlockedEndings (Some [])) st
    | Some _ => st
    end in
  let items := default [] (State.unlockedEndings (state st)) in
  if negb (includes items endingType) then
    let st := with_state
                (State.set_unlockedEndings (Some (push items endingType))) st in
    markUnsaved env st
  else st.

Definition getUnlockedAchievements (st : Store) : list string :=
  Player.achievements (State.player (state st)).

(** ** Queries over the characters *)

(** [Object.values(this.state.characters)]; the order plays no role in
    [every] and [some]. *)
Definition values (chars : gmap Z Character.t) : list Character.t :=
  (map_to_list chars).*2.

Definition every (p : Character.t -> bool) (chars : gmap Z Character.t)
    : bool := forallb p (values chars).

Definition some (p : Character.t -> bool) (chars : gmap Z Character.t)
    : bool := existsb p (values chars).

(** The ids of the characters with a victory; the class only takes the
    length of this list. *)
Definition getDefeatedCharacters (st : Store) : list Z :=
  (filter (fun kc => 0 < Character.victories kc.2)
     (map_to_list (State.characters (state st)))).*1.

Definition getCharacterLevel (characterId : Z) (st : Store) : Z :=
  match State.characters (state st) !! characterId with
  | Some char => or_else (Equipment.level (Character.equipment char)) 1
  | None => 1
  end.

Definition areAllCharactersMaxLevel (st : Store) : bool :=
  every (fun char => 5 <=? Equipment.level (Character.equipment char))
    (State.characters (state st)).

Definition areAllCharactersMaxIntimacy (st : Store) : bool :=
  every (fun char => 100 <=? Character.intimacy char)
    (State.characters (state st)).

Definition hasSecretCondition (st : Store) : bool :=
  every (fun char =>
           (3 <=? Character.victories char) && (80 <=? Character.intimacy char))
    (State.characters (state st)).

(** ** Achievements *)

(** One rule of [checkAchievements]:
    [if (cond && !this.state.unlocks.achievements.includes(id)) push(id)].
    The right operand is evaluated only when [cond] holds, and reading
    [includes] of a missing [achievements] list throws. *)
Definition earned (cond : bool) (id : string) (list_ : option (list Val))
    : option (list string) :=
  if cond then
    match list_ with
    | Some items => Some (if includes items (VStr id) then [] else [id])
    | None => None
    end
  else Some [].

Section Dispatch.
(** What [this.unlock(category, item)] runs. *)
Variable this_unlock : Env -> string -> Val -> Store -> Store.

Definition checkAchievements_via (env : Env) (st : Store)
    : Completion (list string) :=
  let stats := Player.statistics (State.player (state st)) in
  let list_ := State.unlocks (state st) !! "achievements" in
  let allMaxLevel :=
    every (fun char => 5 <=? Equipment.level (Character.equipment char))
      (State.characters (state st)) in
  match earned (10 <=? Statistics.gamesWon stats) "win_10" list_ with
  | None => Throw (TypeError "includes") st
  | Some a1 =>
    match earned (1 <=? Statistics.perfectGames stats) "perfect_1" list_ with
    | None => Throw (TypeError "includes") st
    | Some a2 =>
      match earned allMaxLevel "all_max_equipment" list_ with
      | None => Throw (TypeError "includes") st
      | Some a3 =>
          let achievements := a1 ++ a2 ++ a3 in
          Normal achievements
            (foldl (fun st achievement =>
                      this_unlock env "achievements" (VStr achievement) st)
               st achievements)
      end
    end
  end.
End Dispatch.

(** [checkAchievements] as the class runs it. *)
Definition checkAchievements : Env -> Store -> Completion (list string) :=
  checkAchievements_via call_unlock.

(** [checkAchievements] as it would run if [this.unlock] were the first
    definition. *)
Definition checkAchievements_intended
    : Env -> Store -> Completion (list string) :=
  checkAchievements_via unlock_shadowed.

Definition recordVictory (env : Env) (charId : Z) (gameData : GameData)
    (st : Store) : Completion unit :=
  let st :=
    match State.characters (state st) !! charId with
    | Some char =>
        with_state (fun s =>
          State.set_characters
            (<[charId := Character.set_battleCount
                           (Character.battleCount char + 1)
                           (Character.set_victories
                              (Character.victories char + 1) char)]>
               (State.characters s)) s) st
    | None => st
    end in
  let st := with_state (fun s =>
    let stats := Player.statistics (State.player s) in
    let stats :=
      Statistics.set_gamesWon (Statistics.gamesWon stats + 1) stats in
    let stats := Statistics.set_totalTilesCleared
                   (Statistics.totalTilesCleared stats
                    + or_else_undef (tilesCleared gameData) 0) stats in
    let stats :=
      match combo gameData with
      | Some c => if Statistics.maxCombo stats <? c
                  then Statistics.set_maxCombo c stats else stats
      | None => stats
      end in
    let stats :=
      if perfect gameData
      then Statistics.set_perfectGames (Statistics.perfectGames stats + 1) stats
      else stats in
    State.set_player (Player.set_statistics stats (State.player s)) s) st in
  bind (checkAchievements env st) (fun _ st =>
    let st := markUnsaved env st in
    Normal tt (emit (victoryRecorded charId gameData) st)).

(** ** Endings

    [checkEndingConditions] is defined twice as well; the second definition
    is the method of the class. A method returns a JavaScript value: one of
    the four ending names for the first body, a boolean for the second. *)

Inductive Ending : Type := TRUE | SECRET | NORMAL | BAD.

Inductive Returned : Type :=
  | RetEnding (e : Ending)
  | RetBool (b : bool).

(** The conditions of the first definition, in the order it tests them. *)
Definition trueEnding (st : Store) : bool :=
  let chars := State.characters (state st) in
  let allMaxEquipment :=
    every (fun char => 5 <=? Equipment.level (Character.equipment char))
      chars in
  let allMaxIntimacy :=
    every (fun char => 100 <=? Character.intimacy char) chars in
  let highScore := 500000 <=? Player.totalScore (State.player (state st)) in
  allMaxEquipment && allMaxIntimacy && highScore.

Definition secretEnding (st : Store) : bool :=
  let stats := Player.statistics (State.player (state st)) in
  let chars := State.characters (state st) in
  let perfectGames := 3 <=? Statistics.perfectGames stats in
  let noDefeats :=
    every (fun char => Character.battleCount char <=? Character.victories char)
      chars in
  perfectGames && noDefeats
  && isUnlocked "achievements" (VStr "all_max_equipment") st.

Definition normalEnding (st : Store) : bool :=
  let chars := State.characters (state st) in
  let allCharsChallenged :=
    every (fun char => 0 <? Character.battleCount char) chars in
  let someVictories := some (fun char => 0 <? Character.victories char) chars in
  allCharsChallenged && someVictories.

(** The first definition: replaced, never run. *)
Definition checkEndingConditions_shadowed (st : Store) : Returned :=
  if trueEnding st then RetEnding TRUE
  else if secretEnding st then RetEnding SECRET
  else if normalEnding st then RetEnding NORMAL
  else RetEnding BAD.

(** The second definition: the method of the class. *)
Definition checkEndingConditions (st : Store) : Returned :=
  let defeatedCount := Z.of_nat (length (getDefeatedCharacters st)) in
  RetBool (3 <=? defeatedCount).

(** ** Play time, settings, reset *)

Definition updatePlayTime (env : Env) (seconds : Z) (st : Store) : Store :=
  let st := with_state (fun s =>
    State.set_player
      (Player.set_totalPlayTime
         (Player.totalPlayTime (State.player s) + seconds) (State.player s))
      s) st in
  markUnsaved env st.

Definition updateSettings (env : Env) (settings : Settings.partial)
    (st : Store) : Store :=
  let st := with_state (fun s =>
    State.set_settings (Settings.merge (State.settings s) settings) s) st in
  let st := markUnsaved env st in
  emit (settingsChanged (State.settings (state st))) st.

Definition resetGame (env : Env) (st : Store) : Store :=
  let settings := State.settings (state st) in
  let playerId := State.playerId (state st) in
  let st := with_state (fun _ => getInitialState env) st in
  let st := with_state (State.set_settings settings) st in
  let st := with_state (State.set_playerId playerId) st in
  let st := markUnsaved env st in
  let st := emit gameReset st in
  report LevelLog MsgGameReset st.

(** ** The methods added for the scenes *)

Record CharacterStats : Type := mkCharacterStats {
  wins : Z;
  stats_totalScore : Z;
  battles : Z;
  defeats : Z
}.

Definition getCharacterStats (characterId : Z) (st : Store) : CharacterStats :=
  match State.characters (state st) !! characterId with
  | None => mkCharacterStats 0 0 0 0
  | Some char =>
      mkCharacterStats
        (or_else (Character.victories char) 0)
        (or_else_undef (Character.totalScore char) 0)
        (or_else (Character.battleCount char) 0)
        (or_else (Character.battleCount char) 0
         - or_else (Character.victories char) 0)
  end.

(** The class first creates [equipment] when the character has none; in
    this embedding every character has one. *)
Definition setCharacterLevel (env : Env) (characterId : Z) (level : Z)
    (st : Store) : Store :=
  match State.characters (state st) !! characterId with
  | Some char =>
      let char' :=
        Character.set_equipment
          (Equipment.set_level level (Character.equipment char)) char in
      let st := with_state (fun s =>
        State.set_characters (<[characterId := char']> (State.characters s))
          s) st in
      markUnsaved env st
  | None => st
  end.

Definition upgradeCharacterEquipment (env : Env) (characterId : Z)
    (st : Store) : bool * Store :=
  match State.characters (state st) !! characterId with
  | Some char =>
      let currentLevel :=
        or_else (Equipment.level (Character.equipment char)) 1 in
      if currentLevel <? 5 then
        let char' :=
          Character.set_equipment
            (Equipment.set_level (currentLevel + 1) (Character.equipment char))
            char in
        let st := with_state (fun s =>
          State.set_characters (<[characterId := char']> (State.characters s))
            s) st in
        (true, markUnsaved env st)
      else (false, st)
  | None => (false, st)
  end.

Definition is_win (result : string) : bool :=
  String.eqb result "win" || String.eqb result "perfect_win".

Definition recordBattleResult (env : Env) (characterId : Z) (result : string)
    (score : Z) (st : Store) : Store :=
  match State.characters (state st) !! characterId with
  | None => st
  | Some char =>
      let char :=
        Character.set_battleCount (or_else (Character.battleCount char) 0 + 1)
          char in
      let char :=
        Character.set_totalScore
          (Some (or_else_undef (Character.totalScore char) 0 + score)) char in
      let char :=
        if is_win result
        then Character.set_victories
               (or_else (Character.victories char) 0 + 1) char
        else char in
      let st := with_state (fun s =>
        State.set_characters (<[characterId := char]> (State.characters s)) s)
        st in
      let st := with_state (fun s =>
        let stats := Player.statistics (State.player s) in
        let stats :=
          if String.eqb result "perfect_win"
          then Statistics.set_perfectGames
                 (or_else (Statistics.perfectGames stats) 0 + 1) stats
          else stats in
        let stats :=
          Statistics.set_gamesPlayed
            (or_else (Statistics.gamesPlayed stats) 0 + 1) stats in
        let stats :=
          if is_win result
          then Statistics.set_gamesWon
                 (or_else (Statistics.gamesWon stats) 0 + 1) stats
          else stats in
        let p := Player.set_statistics stats (State.player s) in
        let p := Player.set_totalScore
                   (or_else (Player.totalScore p) 0 + score) p in
        State.set_player p s) st in
      markUnsaved env st
  end.

(** ** Saving and loading *)

(** [JSON.parse(JSON.stringify(this.state))]: the tree is plain data, which
    the text form keeps property by property; a property that is
    [undefined] is not written. The result is a new object built from the
    text alone. *)
Definition getCurrentState (st : Store) : Snapshot.t :=
  Snapshot.of_state (state st).

(** The argument of [loadState]: what [JSON.parse] can return, or
    [undefined]. *)
Inductive Saved : Type :=
  | SavedNull
  | SavedUndefined
  | SavedBool (b : bool)
  | SavedNum (n : Z)
  | SavedStr (s : string)
  | SavedArray (items : list Val)
  | SavedObject (o : Snapshot.t).

(** Reading a property of the argument: [null] and [undefined] throw; a
    boolean or a number has no property; a string and an array have index
    properties only, none of which the class reads; an object has its
    own. *)
Definition properties (saved : Saved) : option Snapshot.t :=
  match saved with
  | SavedNull | SavedUndefined => None
  | SavedBool _ | SavedNum _ | SavedStr _ | SavedArray _ =>
      Some Snapshot.empty
  | SavedObject o => Some o
  end.

(** [{ ...this.getInitialState(), ...oldState }] *)
Definition migrateState (env : Env) (oldState : Snapshot.t) (st : Store)
    : Snapshot.t * Store :=
  let st := report LevelLog MsgMigrating st in
  (Snapshot.of_state (Snapshot.overlay (getInitialState env) oldState), st).

Definition loadState (env : Env) (savedState : Saved) (st : Store)
    : Completion unit :=
  match properties savedState with
  | None =>
      (* [savedState.version] throws; the [catch] block reports the error and
         throws it again *)
      let error := TypeError "version" in
      Throw error (report LevelError (MsgLoadFailed error) st)
  | Some saved =>
      let '(saved, st) :=
        if bool_decide (Snapshot.version saved
                        ≠ Some (State.version (state st)))
        then migrateState env saved (report LevelWarn MsgVersionMismatch st)
        else (saved, st) in
      let st := with_state (fun s => Snapshot.overlay s saved) st in
      let st := with_state (State.set_lastPlayedAt (now env)) st in
      let st := with_state (State.set_hasUnsavedProgress false) st in
      let st := emit (stateLoaded (state st)) st in
      Normal tt (report LevelLog MsgStateLoaded st)
  end.

(** ** References

    The tree is made of objects that are shared by reference, which the
    functions above do not show. For [getCurrentState] the identity of the
    objects matters, so here is the same method one level down. The heap
    maps an address to the object that lives there; a value is plain data
    or the address of an object. [JSON.stringify] reads the text of a
    value off the heap, and [JSON.parse] builds a value from a text,
    taking an unused address for every object and array it creates. *)

Module Refs.

(** The text. *)
#[warnings="-register-all"]
Inductive json : Type :=
  | JLeaf (v : Val)
  | JRat (q : Q)
  | JArray (items : list json)
  | JObject (props : list (string * json)).

Inductive value : Type :=
  | Plain (v : Val)
  | Rat (q : Q)
  | Ref (address : nat).

Inductive object : Type :=
  | Array (items : list value)
  | Object (props : list (string * value)).

Abbreviation heap := (gmap nat object).

(** [JSON.stringify(v)]. The recursion follows the references; [fuel]
    bounds its depth. On a cycle [JSON.stringify] throws, and here the
    fuel runs out: both are [None]. *)
Fixpoint stringify (fuel : nat) (h : heap) (v : value) : option json :=
  match v with
  | Plain p => Some (JLeaf p)
  | Rat q => Some (JRat q)
  | Ref a =>
      match fuel with
      | O => None
      | S fuel =>
          match h !! a with
          | Some (Array items) => JArray <$> mapM (stringify fuel h) items
          | Some (Object props) =>
              JObject
                <$> mapM (fun kv => pair kv.1 <$> stringify fuel h kv.2) props
          | None => None
          end
      end
  end.

Section Thread.
Context {A B S : Type} (f : A -> S -> B * S).

(** Builds the elements left to right, each in the state the previous ones
    left. *)
Fixpoint thread (xs : list A) (s : S) : list B * S :=
  match xs with
  | [] => ([], s)
  | x :: xs =>
      let '(y, s) := f x s in
      let '(ys, s) := thread xs s in
      (y :: ys, s)
  end.
End Thread.

(** A new object: it takes an address the heap does not use. *)
Definition alloc (o : object) (h : heap) : value * heap :=
  let a := base.fresh (dom h) in (Ref a, <[a := o]> h).

(** [JSON.parse(text)] *)
Fixpoint parse (j : json) (h : heap) : value * heap :=
  match j with
  | JLeaf v => (Plain v, h)
  | JRat q => (Rat q, h)
  | JArray items =>
      let '(vs, h) := thread parse items h in
      alloc (Array vs) h
  | JObject props =>
      let '(kvs, h) :=
        thread (fun kv h => let '(v, h) := parse kv.2 h in ((kv.1, v), h))
          props h in
      alloc (Object kvs) h
  end.

(** [JSON.parse(JSON.stringify(root))], with [root] the value of
    [this.state]. *)
Definition getCurrentState (fuel : nat) (h : heap) (root : value)
    : option (value * heap) :=
  j ← stringify fuel h root; Some (parse j h).

End Refs.

(** The text of the tree: what [JSON.stringify(this.state)] writes for the
    tree [s]. A property that is [undefined] is not written. The order of
    the properties is that of the template; a dictionary is written in
    the order of its entries. *)
Definition text (s : string) : Refs.json := Refs.JLeaf (VStr s).











(** ** Statistics for the screens *)

Record GameStats : Type := mkGameStats {
  playTime : Z;
  gs_totalScore : Z;
  gs_wins : Z;
  gs_defeats : Z;
  perfectWins : Z;
  gameOvers : Z;
  maxWinStreak : Z
}.

(** [state.gameOvers] and [state.maxWinStreak] are read here and written
    nowhere in the class; the tree of this embedding does not have them, so
    both reads are [undefined || 0]. *)
Definition getGameStats (st : Store) : GameStats :=
  let p := State.player (state st) in
  let stats := Player.statistics p in
  mkGameStats
    (or_else (Player.totalPlayTime p) 0)
    (or_else (Player.totalScore p) 0)
    (or_else (Statistics.gamesWon stats) 0)
    (or_else (Statistics.gamesPlayed stats) 0
     - or_else (Statistics.gamesWon stats) 0)
    (or_else (Statistics.perfectGames stats) 0)
    (or_else_undef None 0)
    (or_else_undef None 0).

(** ** The mutation API as a whole *)

(** One constructor per mutating method, with the arguments of the call. *)
Inductive Mutation : Type :=
  | ChangeScene (sceneName : string) (data : Val)
  | UpdateCharacter (charId : Z) (updates : Character.partial)
  | UpgradeEquipment (charId : Z) (newLevel : Z) (equipmentName : string)
  | UpdateScore (points : Z)
  | RecordVictory (charId : Z) (gameData : GameData)
  | RecordDefeat (charId : Z)
  | UpdateIntimacy (charId : Z) (change : Z)
  | SetFlag (flagName : string) (value : Val)
  | Unlock (category : string) (item : Val)
  | UpdatePlayTime (seconds : Z)
  | UpdateSettings (settings : Settings.partial)
  | ResetGame
  | IncreaseIntimacy (characterId : Z) (amount : Z)
  | SetCharacterLevel (characterId : Z) (level : Z)
  | UpgradeCharacterEquipment (characterId : Z)
  | RecordBattleResult (characterId : Z) (result : string) (score : Z)
  | UnlockEnding (endingType : Val).

Definition run (env : Env) (op : Mutation) (st : Store) : Completion unit :=
  match op with
  | ChangeScene n d => Normal tt (changeScene env n d st)
  | UpdateCharacter c u => Normal tt (updateCharacter env c u st)
  | UpgradeEquipment c l n => Normal tt (upgradeEquipment env c l n st)
  | UpdateScore p => Normal tt (updateScore env p st)
  | RecordVictory c g => recordVictory env c g st
  | RecordDefeat c => Normal tt (recordDefeat env c st)
  | UpdateIntimacy c d => Normal tt (updateIntimacy env c d st)
  | SetFlag n v => Normal tt (setFlag env n v st)
  | Unlock c i => Normal tt (call_unlock env c i st)
  | UpdatePlayTime s => Normal tt (updatePlayTime env s st)
  | UpdateSettings s => Normal tt (updateSettings env s st)
  | ResetGame => Normal tt (resetGame env st)
  | IncreaseIntimacy c a => Normal tt (increaseIntimacy env c a st)
  | SetCharacterLevel c l => Normal tt (setCharacterLevel env c l st)
  | UpgradeCharacterEquipment c =>
      Normal tt (upgradeCharacterEquipment env c st).2
  | RecordBattleResult c r s => Normal tt (recordBattleResult env c r s st)
  | UnlockEnding e => Normal tt (unlockEnding env e st)
  end.

(** ** The listeners

    [this.listeners] maps an event name to the array of callbacks
    registered for it. A callback is a function of a collaborator; the
    class only compares callbacks by identity ([indexOf]) and calls them.
    Here a callback is its identity, a number, and [fails n e] tells
    whether callback [n] throws when it is called with event [e]. The
    record keeps the calls made and the errors written to the console.
    Callbacks that register, remove or emit while they are being called are
    not covered. *)

(** The name under which a method emits each event. *)
Definition event_name (e : Event) : string :=
  match e with
  | stateLoaded _ => "stateLoaded"
  | sceneChanged _ _ _ => "sceneChanged"
  | characterUpdated _ _ _ => "characterUpdated"
  | equipmentUpgraded _ _ _ _ => "equipmentUpgraded"
  | scoreUpdated _ _ => "scoreUpdated"
  | victoryRecorded _ _ => "victoryRecorded"
  | defeatRecorded _ => "defeatRecorded"
  | intimacyChanged _ _ _ => "intimacyChanged"
  | flagChanged _ _ _ => "flagChanged"
  | unlocked _ _ => "unlocked"
  | settingsChanged _ => "settingsChanged"
  | gameReset => "gameReset"
  end.

Module Bus.

Record t : Type := mk {
  listeners : gmap string (list nat);
  calls : list (nat * Event);
  errors : list (string * nat)
}.

(** [new Map()] *)
Definition empty : t := mk ∅ [] [].

Definition on (event : string) (callback : nat) (bus : t) : t :=
  let callbacks := default [] (listeners bus !! event) in
  mk (<[event := push callbacks callback]> (listeners bus)) (calls bus)
     (errors bus).

(** [callbacks.indexOf(callback)] and [callbacks.splice(index, 1)]: the
    first occurrence goes. *)
Fixpoint remove_first (callback : nat) (callbacks : list nat) : list nat :=
  match callbacks with
  | [] => []
  | c :: cs => if decide (c = callback) then cs
               else c :: remove_first callback cs
  end.

Definition off (event : string) (callback : nat) (bus : t) : t :=
  match listeners bus !! event with
  | Some callbacks =>
      mk (<[event := remove_first callback callbacks]> (listeners bus))
         (calls bus) (errors bus)
  | None => bus
  end.

(** One turn of the [forEach] of [emit]: the call, inside [try]/[catch]. *)
Definition call (fails : nat -> Event -> bool) (e : Event) (bus : t)
    (callback : nat) : t :=
  let bus := mk (listeners bus) (push (calls bus) (callback, e)) (errors bus) in
  if fails callback e
  then mk (listeners bus) (calls bus)
         (push (errors bus) (event_name e, callback))
  else bus.

Definition emit (fails : nat -> Event -> bool) (e : Event) (bus : t) : t :=
  match listeners bus !! event_name e with
  | Some callbacks => foldl (call fails e) bus callbacks
  | None => bus
  end.

(** The callbacks registered for a name, in the order of registration. *)
Definition handlers (event : string) (bus : t) : list nat :=
  default [] (listeners bus !! event).

End Bus.

(** ** The tables of the game

    The cache and the queries of [CSVManager] (data/CSVManager.js). A
    table is the array of rows [loadCSV] has stored after parsing and
    [postProcessData]; a row is an object of cells. The numbers of the
    identifying columns are results of [parseInt]: an integer or [NaN]. *)

Inductive Num : Type :=
  | NaN
  | Int (n : Z).

#[global] Instance Num_eq_dec : EqDecision Num.
Proof. solve_decision. Defined.

Inductive Cell : Type :=
  | CellNull
  | CellBool (b : bool)
  | CellNum (n : Num)
  | CellStr (s : string).

Definition Row : Type := gmap string Cell.

Inductive CsvMessage : Type :=
  | MsgCsvLoaded (filename : string) (records : nat)
  | MsgCacheCleared (what : string).

Module CSVManager.

(** [this.data], [this.isLoaded] and the console. *)
Record t : Type := mk {
  data : gmap string (list Row);
  isLoaded : gmap string bool;
  console : list CsvMessage
}.

Definition constructor : t := mk ∅ ∅ [].

(** The [complete] callback of [loadCSV], from the processed rows on;
    [dataKey] is [filename] without its ending. *)
Definition complete (filename dataKey : string) (processedData : list Row)
  (m : t) : t :=
  mk (<[dataKey := processedData]> (data m))
     (<[dataKey := true]> (isLoaded m))
     (push (console m) (MsgCsvLoaded filename (length processedData))).

(** [this.data.get(dataKey) || null]: an array, also an empty one, is
    truthy. [None] is [null]. *)
Definition getData (dataKey : string) (m : t) : option (list Row) :=
  data m !! dataKey.

Definition findData (dataKey : string) (predicate : Row -> bool) (m : t)
  : list Row :=
  match getData dataKey m with
  | Some data => List.filter predicate data
  | None => []
  end.

(** [data.find(predicate) || null]: a row is an object, so truthy. *)
Definition findOne (dataKey : string) (predicate : Row -> bool) (m : t)
  : option Row :=
  match getData dataKey m with
  | Some data => List.find predicate data
  | None => None
  end.

(** [item.field === text] for a string [text]. *)
Definition strict_eq (v : option Cell) (text : string) : bool :=
  match v with
  | Some (CellStr s) => bool_decide (s = text)
  | _ => false
  end.

(** [getTiles(tileType = null, suit = null)]; [None] is an argument left
    out, [null] or [undefined]. An empty string is falsy as they are. *)
Definition given (arg : option string) : bool :=
  match arg with
  | Some s => negb (bool_decide (s = ""))
  | None => false
  end.

Definition getTiles (tileType suit : option string) (m : t) : list Row :=
  let filters :=
    (if given tileType
     then [fun item : Row => strict_eq (item !! "tile_type") (default "" tileType)]
     else [])
    ++ (if given suit
        then [fun item : Row => strict_eq (item !! "suit") (default "" suit)]
        else []) in
  if bool_decide (length filters = 0%nat)
  then default [] (getData "mahjong_tiles" m)
  else findData "mahjong_tiles"
         (fun item => forallb (fun filter => filter item) filters) m.

Definition isDataLoaded (dataKey : string) (m : t) : bool :=
  default false (isLoaded m !! dataKey).

Definition requiredData : list string :=
  ["scenes"; "characters"; "dialogues"; "character_levels"; "endings";
   "ui_elements"; "game_balance"; "sound_effects"; "mahjong_tiles"].

Definition isAllDataLoaded (m : t) : bool :=
  forallb (fun dataKey => isDataLoaded dataKey m) requiredData.

(** [clearCache(dataKey = null)]; the empty string is falsy, so it clears
    everything as [null] does. *)
Definition clearCache (dataKey : option string) (m : t) : t :=
  if given dataKey
  then mk (delete (default "" dataKey) (data m))
          (delete (default "" dataKey) (isLoaded m))
          (push (console m) (MsgCacheCleared (default "" dataKey)))
  else mk ∅ ∅ (push (console m) (MsgCacheCleared "all")).

Section Numbers.

(** The conversion of a string to a number, as in [s - 0]. The tables
    keep numbers in the columns compared here, so it stays a parameter. *)
Variable StringToNumber : string -> Num.

(** [ToNumber]; [None] is [undefined]. *)
Definition ToNumber (v : option Cell) : Num :=
  match v with
  | None => NaN
  | Some CellNull => Int 0
  | Some (CellBool b) => Int (if b then 1 else 0)
  | Some (CellNum n) => n
  | Some (CellStr s) => StringToNumber s
  end.

(** [v == id] for a number [id]: [null] and [undefined] equal no number,
    [NaN] equals nothing, everything else is compared as a number. *)
Definition loose_eq (v : option Cell) (id : Num) : bool :=
  match v with
  | None | Some CellNull => false
  | _ =>
      match ToNumber v, id with
      | Int a, Int b => bool_decide (a = b)
      | _, _ => false
      end
  end.

(** [a - b]. *)
Definition minus (a b : option Cell) : Num :=
  match ToNumber a, ToNumber b with
  | Int x, Int y => Int (x - y)
  | _, _ => NaN
  end.

(** [Array.prototype.sort(comparefn)]: stable, and a result [NaN] of the
    comparator counts as 0. Where the comparator is no consistent order
    (some keys are [NaN]) the language leaves the order to the
    implementation; insertion is one such implementation. *)
Definition positive (v : Num) : bool :=
  match v with
  | Int n => 0 <? n
  | NaN => false
  end.

Fixpoint insert (comparefn : Row -> Row -> Num) (x : Row) (l : list Row)
  : list Row :=
  match l with
  | [] => [x]
  | y :: l' =>
      if positive (comparefn x y) then y :: insert comparefn x l'
      else x :: y :: l'
  end.

Definition sort (comparefn : Row -> Row -> Num) (l : list Row) : list Row :=
  foldr (insert comparefn) [] l.

Definition getById (dataKey : string) (id : Num) (idField : string) (m : t)
  : option Row :=
  findOne dataKey (fun item => loose_eq (item !! idField) id) m.

Definition getCharacter (charId : Num) (m : t) : option Row :=
  getById "characters" charId "char_id" m.

Definition getScene (sceneId : Num) (m : t) : option Row :=
  getById "scenes" sceneId "scene_id" m.

Definition by_dialogue_id (a b : Row) : Num :=
  minus (a !! "dialogue_id") (b !! "dialogue_id").

(** [getDialogues(sceneId, charId = null)]. *)
Definition getDialogues (sceneId : Num) (charId : option Num) (m : t)
  : list Row :=
  let filters :=
    (fun item : Row => loose_eq (item !! "scene_id") sceneId)
    :: match charId with
       | Some c => [fun item : Row => loose_eq (item !! "char_id") c]
       | None => []
       end in
  sort by_dialogue_id
    (findData "dialogues"
       (fun item => forallb (fun filter => filter item) filters) m).

Definition getDialoguesByScene (sceneId : Num) (m : t) : list Row :=
  sort by_dialogue_id
    (findData "dialogues"
       (fun item => loose_eq (item !! "scene_id") sceneId) m).

End Numbers.

End CSVManager.

(** ** The application around the store

    The methods of [MahjongGakuenBattleStory] (main.js) that save and
    load the game. [localStorage] holds strings; what the class does with
    the string of the save depends only on whether it is empty and on what
    [JSON.parse] makes of it, so a stored string is given by that. *)

(** What [JSON.parse] returns. *)
Inductive JsonValue : Type :=
  | JsonNull
  | JsonBool (b : bool)
  | JsonNum (n : Z)
  | JsonStr (s : string)
  | JsonArray (items : list Val)
  | JsonObject (o : Snapshot.t).

Definition to_saved (v : JsonValue) : Saved :=
  match v with
  | JsonNull => SavedNull
  | JsonBool b => SavedBool b
  | JsonNum n => SavedNum n
  | JsonStr s => SavedStr s
  | JsonArray items => SavedArray items
  | JsonObject o => SavedObject o
  end.

(** A stored string: the empty string, a text that is not JSON, or the
    text of a value. *)
Inductive Stored : Type :=
  | EmptyText
  | NotJson
  | Json (v : JsonValue).

(** What the application catches. *)
Inductive AppError : Type :=
  | SyntaxError
  | Thrown (e : Exception)
  | QuotaExceeded
  | MissingData (dataKey : string).

Inductive AppMessage : Type :=
  | MsgSaveLoaded
  | MsgSaveLoadFailed (error : AppError)
  | MsgGameSaved
  | MsgGameSaveFailed (error : AppError)
  | MsgDataValidated.

Module App.

(** [this.gameState], [this.csvManager], the item 'mahjong_gakuen_save' of
    [localStorage] ([None]: no such item), and the lines the application
    writes to the console (those of the store are in the store). *)
Record t : Type := mk {
  gameState : Store;
  csvManager : CSVManager.t;
  localStorage : option Stored;
  log : list (Level * AppMessage)
}.

(** [!data || data.length === 0]. *)
Definition missing (dataKey : string) (m : CSVManager.t) : bool :=
  match CSVManager.getData dataKey m with
  | None => true
  | Some data => bool_decide (length data = 0%nat)
  end.

(** The loop of [validateGameData]: the key it throws for, if any. *)
Fixpoint first_missing (requiredData : list string) (m : CSVManager.t)
  : option string :=
  match requiredData with
  | [] => None
  | dataKey :: rest =>
      if missing dataKey m then Some dataKey else first_missing rest m
  end.

Definition requiredData : list string :=
  ["characters"; "scenes"; "dialogues"; "mahjong_tiles"].

Definition validateGameData (app : t) : AppError + t :=
  match first_missing requiredData (csvManager app) with
  | Some dataKey => inl (MissingData dataKey)
  | None =>
      inr (mk (gameState app) (csvManager app) (localStorage app)
              (push (log app) (LevelLog, MsgDataValidated)))
  end.

Definition loadSaveData (env : Env) (app : t) : t :=
  match localStorage app with
  | None | Some EmptyText => app
  | Some NotJson =>
      mk (gameState app) (csvManager app) None
         (push (log app) (LevelWarn, MsgSaveLoadFailed SyntaxError))
  | Some (Json v) =>
      match loadState env (to_saved v) (gameState app) with
      | Normal _ st =>
          mk st (csvManager app) (localStorage app)
             (push (log app) (LevelLog, MsgSaveLoaded))
      | Throw e st =>
          mk st (csvManager app) None
             (push (log app) (LevelWarn, MsgSaveLoadFailed (Thrown e)))
      end
  end.


End App.

(** * Vocabulary of the properties *)

(** [this.state.characters] *)
Definition chars (st : Store) : gmap Z Character.t :=
  State.characters (state st).

(** The intimacy of a character, when the id is known. *)
Definition intimacy_of (st : Store) (id : Z) : option Z :=
  Character.intimacy <$> chars st !! id.

(** The equipment level of a character, when the id is known. *)
Definition level_of (st : Store) (id : Z) : option Z :=
  (fun c => Equipment.level (Character.equipment c)) <$> chars st !! id.

(** A store at session start, used for the concrete runs below. *)
Definition env0 : Env := mkEnv 1700000000000 "k3j9x2m1q".
Definition fresh : Store := constructor env0.

(** One call of the three methods that write an equipment level. *)
Inductive EquipmentCall : Type :=
  | CallUpgradeEquipment (charId : Z) (newLevel : Z) (equipmentName : string)
  | CallUpgradeCharacterEquipment (characterId : Z)
  | CallSetCharacterLevel (characterId : Z) (level : Z).

Definition call (env : Env) (c : EquipmentCall) (st : Store) : Store :=
  match c with
  | CallUpgradeEquipment id l n => upgradeEquipment env id l n st
  | CallUpgradeCharacterEquipment id => (upgradeCharacterEquipment env id st).2
  | CallSetCharacterLevel id l => setCharacterLevel env id l st
  end.

(** A sequence of such calls, first to last. *)
Definition calls (env : Env) (cs : list EquipmentCall) (st : Store) : Store :=
  foldl (fun st c => call env c st) st cs.

(** The caller keeps to the range: a level it passes lies between the
    current level of that character and 5. *)
Definition keeps_range (c : EquipmentCall) (st : Store) : Prop :=
  match c with
  | CallUpgradeEquipment id l _ | CallSetCharacterLevel id l =>
      forall current, level_of st id = Some current -> current <= l <= 5
  | CallUpgradeCharacterEquipment _ => True
  end.

(** Every call of the sequence keeps to the range at the time it is
    made. *)
Fixpoint all_keep_range (env : Env) (cs : list EquipmentCall) (st : Store)
    : Prop :=
  match cs with
  | [] => True
  | c :: cs => keeps_range c st /\ all_keep_range env cs (call env c st)
  end.

(** The two conditions as the specification words them. *)
Definition spec_TRUE (st : Store) : Prop :=
  (forall k c, chars st !! k = Some c ->
     Equipment.level (Character.equipment c) = 5 /\ Character.intimacy c = 100)
  /\ 500000 <= Player.totalScore (State.player (state st)).

Definition spec_SECRET (st : Store) : Prop :=
  3 <= Statistics.perfectGames (Player.statistics (State.player (state st)))
  /\ (forall k c, chars st !! k = Some c ->
        Character.battleCount c <= Character.victories c)
  /\ VStr "all_max_equipment"
     ∈ default [] (State.unlocks (state st) !! "achievements").

(** A store at the end of a flawless run: every character fought once and
    lost once to the player, with full equipment and intimacy; three
    perfect games, 500000 points, and the equipment achievement. *)
Definition champion (c : Character.t) : Character.t :=
  Character.set_intimacy 100
    (Character.set_equipment (Equipment.mk 5 "完全装備")
       (Character.set_victories 1 (Character.set_battleCount 1 c))).

Definition both_endings : Store :=
  with_state (fun s =>
    State.set_characters (champion <$> State.characters s)
      (State.set_player
         (Player.mk "主人公" 1 500000 0 [] (Statistics.mk 3 3 0 0 3))
         (State.set_unlocks
            (<["achievements" := [VStr "all_max_equipment"]]> (State.unlocks s))
            s))) fresh.

(** The rule of an achievement, as the specification words it. *)
Definition rule (a : string) (st : Store) : Prop :=
  (a = "win_10"
   /\ 10 <= Statistics.gamesWon (Player.statistics (State.player (state st))))
  \/ (a = "perfect_1"
      /\ 1 <= Statistics.perfectGames
                (Player.statistics (State.player (state st))))
  \/ (a = "all_max_equipment"
      /\ forall k c, chars st !! k = Some c ->
                     5 <= Equipment.level (Character.equipment c)).

(** The identifiers one evaluation returns, read off the tree; [None] when
    the evaluation throws. *)
Definition newly_earned (s : State.t) : option (list string) :=
  let stats := Player.statistics (State.player s) in
  let list_ := State.unlocks s !! "achievements" in
  a1 ← earned (10 <=? Statistics.gamesWon stats) "win_10" list_;
  a2 ← earned (1 <=? Statistics.perfectGames stats) "perfect_1" list_;
  a3 ← earned (every (fun char =>
                  5 <=? Equipment.level (Character.equipment char))
                 (State.characters s)) "all_max_equipment" list_;
  Some (a1 ++ a2 ++ a3).

(** The event a method passes to [emit] itself, written with the values
    before ([st]) and after ([st']) the call: one for the methods of the
    first part of the class when they apply, none for the methods added
    for the scenes. [unlock] is left out ([None]): the class has two
    methods of that name, and what a call of it emits is the matter of
    C2. *)
Definition announcement (op : Mutation) (st st' : Store)
    : option (list Event) :=
  match op with
  | Unlock _ _ => None
  | ChangeScene _ data =>
      Some [sceneChanged (State.currentScene (state st))
              (State.currentScene (state st')) data]
  | UpdateCharacter c _ =>
      match chars st !! c, chars st' !! c with
      | Some old, Some new => Some [characterUpdated c old new]
      | _, _ => Some []
      end
  | UpgradeEquipment c _ _ =>
      match chars st !! c, chars st' !! c with
      | Some old, Some new =>
          Some [equipmentUpgraded c
                  (Equipment.level (Character.equipment old))
                  (Equipment.level (Character.equipment new))
                  (Equipment.name (Character.equipment new))]
      | _, _ => Some []
      end
  | UpdateScore points =>
      Some [scoreUpdated points (Player.totalScore (State.player (state st')))]
  | RecordVictory c gameData => Some [victoryRecorded c gameData]
  | RecordDefeat c => Some [defeatRecorded c]
  | UpdateIntimacy c _ =>
      match chars st !! c, chars st' !! c with
      | Some old, Some new =>
          Some [intimacyChanged c (Character.intimacy old)
                  (Character.intimacy new)]
      | _, _ => Some []
      end
  | SetFlag n v => Some [flagChanged n (read (State.flags (state st)) n) v]
  | UpdateSettings _ => Some [settingsChanged (State.settings (state st'))]
  | ResetGame => Some [gameReset]
  | UpdatePlayTime _ | IncreaseIntimacy _ _
  | SetCharacterLevel _ _ | UpgradeCharacterEquipment _
  | RecordBattleResult _ _ _ | UnlockEnding _ => Some []
  end.

(** The events emitted on the way by the [unlock] calls of a method: only
    [recordVictory] makes such calls, one for each achievement newly
    earned. *)
Definition unlocked_on_the_way (op : Mutation) (events : list Event) : Prop :=
  match op with
  | RecordVictory _ _ =>
      Forall (fun e => exists item, e = unlocked "achievements" item) events
  | _ => events = []
  end.

(** The tree after [markUnsaved]. *)
Definition marked (env : Env) (st : Store) : Prop :=
  State.hasUnsavedProgress (state st) = true
  /\ State.lastPlayedAt (state st) = now env.

(** The top-level properties of the tree, by name. *)
Inductive Field : Type :=
  | FVersion | FPlayerId | FCreatedAt | FLastPlayedAt | FCurrentScene
  | FCurrentCharacter | FCurrentDialogue | FCompletedScenes | FCharacters
  | FPlayer | FSettings | FUnlocks | FCurrentGame | FFlags
  | FHasUnsavedProgress | FUnlockedContent | FUnlockedEndings.

(** The value of a property, whatever its type. *)
Inductive FieldValue : Type :=
  | OfString (v : string)
  | OfNumber (v : Z)
  | OfVal (v : Val)
  | OfBool (v : bool)
  | OfScenes (v : list string)
  | OfCharacters (v : gmap Z Character.t)
  | OfPlayer (v : Player.t)
  | OfSettings (v : Settings.t)
  | OfUnlocks (v : gmap string (list Val))
  | OfFlags (v : gmap string Val)
  | OfItems (v : list Val).

(** [tree[f]] on a live tree; [None] is [undefined]. *)
Definition state_field (f : Field) (s : State.t) : option FieldValue :=
  match f with
  | FVersion => Some (OfString (State.version s))
  | FPlayerId => Some (OfString (State.playerId s))
  | FCreatedAt => Some (OfNumber (State.createdAt s))
  | FLastPlayedAt => Some (OfNumber (State.lastPlayedAt s))
  | FCurrentScene => Some (OfString (State.currentScene s))
  | FCurrentCharacter => Some (OfVal (State.currentCharacter s))
  | FCurrentDialogue => Some (OfNumber (State.currentDialogue s))
  | FCompletedScenes => Some (OfScenes (State.completedScenes s))
  | FCharacters => Some (OfCharacters (State.characters s))
  | FPlayer => Some (OfPlayer (State.player s))
  | FSettings => Some (OfSettings (State.settings s))
  | FUnlocks => Some (OfUnlocks (State.unlocks s))
  | FCurrentGame => Some (OfVal (State.currentGame s))
  | FFlags => Some (OfFlags (State.flags s))
  | FHasUnsavedProgress => Some (OfBool (State.hasUnsavedProgress s))
  | FUnlockedContent => OfItems <$> State.unlockedContent s
  | FUnlockedEndings => OfItems <$> State.unlockedEndings s
  end.

(** [snapshot[f]] on a saved object. *)
Definition snapshot_field (f : Field) (o : Snapshot.t) : option FieldValue :=
  match f with
  | FVersion => OfString <$> Snapshot.version o
  | FPlayerId => OfString <$> Snapshot.playerId o
  | FCreatedAt => OfNumber <$> Snapshot.createdAt o
  | FLastPlayedAt => OfNumber <$> Snapshot.lastPlayedAt o
  | FCurrentScene => OfString <$> Snapshot.currentScene o
  | FCurrentCharacter => OfVal <$> Snapshot.currentCharacter o
  | FCurrentDialogue => OfNumber <$> Snapshot.currentDialogue o
  | FCompletedScenes => OfScenes <$> Snapshot.completedScenes o
  | FCharacters => OfCharacters <$> Snapshot.characters o
  | FPlayer => OfPlayer <$> Snapshot.player o
  | FSettings => OfSettings <$> Snapshot.settings o
  | FUnlocks => OfUnlocks <$> Snapshot.unlocks o
  | FCurrentGame => OfVal <$> Snapshot.currentGame o
  | FFlags => OfFlags <$> Snapshot.flags o
  | FHasUnsavedProgress => OfBool <$> Snapshot.hasUnsavedProgress o
  | FUnlockedContent => OfItems <$> Snapshot.unlockedContent o
  | FUnlockedEndings => OfItems <$> Snapshot.unlockedEndings o
  end.

(** The two properties [loadState] writes itself after the merge. *)
Definition stamp (f : Field) : bool :=
  match f with
  | FLastPlayedAt | FHasUnsavedProgress => true
  | _ => false
  end.

(** The properties of the template of [getInitialState]: the data model. *)
Definition template (f : Field) : bool :=
  match f with
  | FUnlockedContent | FUnlockedEndings => false
  | _ => true
  end.

(** The object [loadState] merges into the live tree: the argument's own
    properties, or the result of the migration when the versions differ. *)
Definition merged (env : Env) (o : Snapshot.t) (live : State.t) : Snapshot.t :=
  if bool_decide (Snapshot.version o ≠ Some (State.version live))
  then Snapshot.of_state (Snapshot.overlay (getInitialState env) o)
  else o.

(** Two later moments of the session. *)
Definition env1 : Env := mkEnv 1700000060000 "p7w2c9d4x".
Definition env2 : Env := mkEnv 1700000120000 "t5b8n1r6z".

(** A save written by an earlier version: no [flags], and none of the
    settings and unlocks. *)
Definition old_save : Snapshot.t :=
  Snapshot.mk (Some "0.9.0") (Some "player_old_1600000000000")
    (Some 1600000000000) (Some 1600000999000) (Some "scene_2") None (Some 4)
    (Some ["title"; "scene_1"]) None
    (Some (Player.mk "主人公" 2 1234 360 [] (Statistics.mk 3 2 96 5 0)))
    None None None None (Some true) None None.

(** The heap holds the tree [j] at the value [v]: plain data is the leaf
    itself, and an address holds an array or an object whose members hold
    the members of the tree, in order and under the same names. *)
Section All2.
Context {A B : Type} (R : A -> B -> Prop).

End All2.




(** A session that loads the old save, plays on (a flag is set), and loads
    the old save once more. *)
Definition loaded_once : Store :=
  store_of (loadState env0 (SavedObject old_save) fresh).

Definition played_on : Store :=
  setFlag env1 "met_rival" (VBool true) loaded_once.

(** ** Vocabulary of the further properties *)

(** The top-level properties a method may write. *)
Definition writes (op : Mutation) (f : Field) : bool :=
  match op with
  | ResetGame =>
      match f with
      | FSettings | FPlayerId => false
      | _ => true
      end
  | _ =>
      stamp f
      || match op, f with
         | ChangeScene _ _, (FCurrentScene | FCompletedScenes) => true
         | (UpdateCharacter _ _ | UpgradeEquipment _ _ _ | RecordDefeat _
            | UpdateIntimacy _ _ | IncreaseIntimacy _ _
            | SetCharacterLevel _ _ | UpgradeCharacterEquipment _),
           FCharacters => true
         | (UpdateScore _ | UpdatePlayTime _), FPlayer => true
         | RecordBattleResult _ _ _, (FCharacters | FPlayer) => true
         | RecordVictory _ _, (FCharacters | FPlayer | FUnlockedContent) =>
             true
         | SetFlag _ _, FFlags => true
         | Unlock _ _, FUnlockedContent => true
         | UnlockEnding _, FUnlockedEndings => true
         | UpdateSettings _, FSettings => true
         | _, _ => false
         end
  end.

(** The character a method is called for. *)
Definition target (op : Mutation) : option Z :=
  match op with
  | UpdateCharacter c _ | UpgradeEquipment c _ _ | RecordVictory c _
  | RecordDefeat c | UpdateIntimacy c _ | IncreaseIntimacy c _
  | SetCharacterLevel c _ | UpgradeCharacterEquipment c
  | RecordBattleResult c _ _ => Some c
  | _ => None
  end.

Definition is_reset (op : Mutation) : bool :=
  match op with
  | ResetGame => true
  | _ => false
  end.

(** A call that hands the store no object of the caller.
    [updateCharacter] copies the properties of [updates] as they are, so an
    [equipment] among them is stored by reference: the caller, or another
    character given the same object, then holds the object the store
    writes to. Every other argument of the API is plain data. *)
Definition hands_no_object (op : Mutation) : bool :=
  match op with
  | UpdateCharacter _ updates =>
      bool_decide (Character.p_equipment updates = None)
  | _ => true
  end.

(** The calls of a session, each at its own time, from the store the
    previous one left. *)
Definition session (steps : list (Env * Mutation)) (st : Store) : Store :=
  foldl (fun st step => store_of (run step.1 step.2 st)) st steps.

(** A walk through scenes: one [changeScene] per name, with its data. *)
Definition visit (env : Env) (scenes : list (string * Val)) (st : Store)
    : Store :=
  foldl (fun st s => changeScene env s.1 s.2 st) st scenes.




Definition statistics_of (st : Store) : Statistics.t :=
  Player.statistics (State.player (state st)).

(** The counters agree with each other. *)
Definition consistent (st : Store) : Prop :=
  (forall id c, chars st !! id = Some c ->
     0 <= Character.victories c <= Character.battleCount c)
  /\ 0 <= Statistics.perfectGames (statistics_of st)
     <= Statistics.gamesWon (statistics_of st)
  /\ Statistics.gamesWon (statistics_of st)
     <= Statistics.gamesPlayed (statistics_of st).

(** The methods that keep them so. *)
Definition keeps_counters (op : Mutation) : bool :=
  match op with
  | RecordBattleResult _ _ _ | RecordDefeat _ | UpdateScore _
  | ChangeScene _ _ | UpgradeEquipment _ _ _ | UpdateIntimacy _ _
  | SetFlag _ _ | Unlock _ _ | UpdatePlayTime _ | UpdateSettings _
  | ResetGame | IncreaseIntimacy _ _ | SetCharacterLevel _ _
  | UpgradeCharacterEquipment _ | UnlockEnding _ => true
  | UpdateCharacter _ _ | RecordVictory _ _ => false
  end.

(** [n] calls of [upgradeCharacterEquipment] for one character. *)
Definition upgrade_times (env : Env) (id : Z) (n : nat) (st : Store) : Store :=
  Nat.iter n (fun st => (upgradeCharacterEquipment env id st).2) st.

(** The scenes a walk leaves behind: the scene it starts in and every
    scene it visits but the last. *)
Fixpoint left_scenes (current : string) (names : list string) : list string :=
  match names with
  | [] => []
  | n :: ns => current :: left_scenes n ns
  end.


(** A sequence of calls of the mutation API, each from the store the
    previous one left, whether that one returned or threw. *)
Definition run_all (env : Env) (ops : list Mutation) (st : Store) : Store :=
  foldl (fun st op => store_of (run env op st)) st ops.

(** What both methods do to their list: add the item at the end unless it
    is there. *)
Definition add_once (items : list Val) (x : Val) : list Val :=
  if includes items x then items else items ++ [x].

(** The calls that change the cache of the tables, and a sequence of them. *)
Inductive CacheCall : Type :=
  | Loaded (filename dataKey : string) (processedData : list Row)
  | Cleared (dataKey : option string).

Definition cache_call (c : CacheCall) (m : CSVManager.t) : CSVManager.t :=
  match c with
  | Loaded filename dataKey processedData =>
      CSVManager.complete filename dataKey processedData m
  | Cleared dataKey => CSVManager.clearCache dataKey m
  end.

Definition cache_calls (cs : list CacheCall) (m : CSVManager.t) : CSVManager.t :=
  foldl (fun m c => cache_call c m) m cs.

(** The key a call writes; [None] for a call that clears everything. *)
Definition cache_key (c : CacheCall) : option string :=
  match c with
  | Loaded _ dataKey _ => Some dataKey
  | Cleared dataKey => if CSVManager.given dataKey then dataKey else None
  end.

(** A row whose [dialogue_id] is a number, and that number. *)
Definition numbered (StringToNumber : string -> Num) (row : Row) : Prop :=
  CSVManager.ToNumber StringToNumber (row !! "dialogue_id") <> NaN.

#[global] Instance numbered_dec StringToNumber row :
  Decision (numbered StringToNumber row).
Proof. unfold numbered. apply _. Defined.

Definition dialogue_id (StringToNumber : string -> Num) (row : Row) : Z :=
  match CSVManager.ToNumber StringToNumber (row !! "dialogue_id") with
  | Int n => n
  | NaN => 0
  end.

Definition of_scene (StringToNumber : string -> Num) (sceneId : Num)
  (item : Row) : bool :=
  CSVManager.loose_eq StringToNumber (item !! "scene_id") sceneId.

Definition of_char (StringToNumber : string -> Num) (charId : Num)
  (item : Row) : bool :=
  CSVManager.loose_eq StringToNumber (item !! "char_id") charId.

(** Ascending by a key: every row is at most the rows after it. *)
Fixpoint ascending (key : Row -> Z) (l : list Row) : Prop :=
  match l with
  | [] => True
  | x :: l' => Forall (fun y => key x <= key y) l' /\ ascending key l'
  end.

(** A table of dialogues, for the examples: a conversion of strings that
    reads no string as a number, and rows of three numbers. *)
Definition no_number (s : string) : Num := NaN.

Definition dialogue (id scene char : Z) : Row :=
  {[ "dialogue_id" := CellNum (Int id);
     "scene_id" := CellNum (Int scene);
     "char_id" := CellNum (Int char) ]}.

Definition dialogues0 : CSVManager.t :=
  CSVManager.complete "dialogues.csv" "dialogues"
    [dialogue 3 1 2; dialogue 1 1 1; dialogue 2 2 1; dialogue 1 1 2]
    CSVManager.constructor.

(** * Properties *)

(** ** Helpers *)

Lemma or_else_zero (x : Z) : or_else x 0 = x.
Proof. unfold or_else. destruct (Z.eqb_spec x 0); congruence. Qed.

Lemma includes_true {A : Type} `{EqDecision A} (l : list A) (x : A) :
  includes l x = true <-> x ∈ l.
Proof. unfold includes. apply bool_decide_eq_true. Qed.

Lemma includes_false {A : Type} `{EqDecision A} (l : list A) (x : A) :
  includes l x = false <-> x ∉ l.
Proof. unfold includes. apply bool_decide_eq_false. Qed.

Lemma includes_nil {A : Type} `{EqDecision A} (x : A) : includes [] x = false.
Proof. apply includes_false. apply not_elem_of_nil. Qed.

Lemma every_true (p : Character.t -> bool) (m : gmap Z Character.t) :
  every p m = true <-> forall k c, m !! k = Some c -> p c = true.
Proof.
  unfold every, values. rewrite forallb_forall. split.
  - intros H k c Hk. apply H. apply list_elem_of_In.
    apply list_elem_of_fmap. exists (k, c). split; [done |].
    by apply elem_of_map_to_list.
  - intros H c Hc. apply list_elem_of_In, list_elem_of_fmap in Hc.
    destruct Hc as [[k c'] [-> Hin]]. apply elem_of_map_to_list in Hin.
    by apply (H k).
Qed.

(** ** Intimacy stays in range (C3) *)

(** [updateIntimacy] clamps on both sides. *)
Lemma updateIntimacy_known env id delta st c :
  chars st !! id = Some c ->
  intimacy_of (updateIntimacy env id delta st) id
  = Some (Z.max 0 (Z.min 100 (Character.intimacy c + delta))).
Proof.
  intros Hc. unfold intimacy_of, chars in *. unfold updateIntimacy.
  rewrite Hc. cbn. by rewrite lookup_insert_eq.
Qed.

(** [increaseIntimacy] clamps from above only. *)
Lemma increaseIntimacy_known env id amount st c :
  chars st !! id = Some c ->
  intimacy_of (increaseIntimacy env id amount st) id
  = Some (Z.min 100 (Character.intimacy c + amount)).
Proof.
  intros Hc. unfold intimacy_of, chars in *. unfold increaseIntimacy.
  rewrite Hc. cbn. rewrite lookup_insert_eq. cbn. by rewrite or_else_zero.
Qed.

(** C3, as stated, fails: [increaseIntimacy(1, -5)] on a new store leaves
    character 1 with intimacy -5, below the range. *)
Lemma increaseIntimacy_negative_amount :
  is_Some (chars fresh !! 1)
  /\ intimacy_of (increaseIntimacy env0 1 (-5) fresh) 1 = Some (-5)
  /\ ~ (exists v, intimacy_of (increaseIntimacy env0 1 (-5) fresh) 1 = Some v
                  /\ 0 <= v <= 100).
Proof.
  assert (E : intimacy_of (increaseIntimacy env0 1 (-5) fresh) 1 = Some (-5))
    by (vm_compute; reflexivity).
  split; [by eexists | split; [exact E |]].
  intros [v [Hv Hr]]. rewrite E in Hv. inversion Hv. lia.
Qed.

(** C3 (amended). For a known character and every integer argument:
    [updateIntimacy] leaves the intimacy within [0, 100];
    [increaseIntimacy] leaves it at most 100, and at least 0 when the
    amount and the stored intimacy are not negative. *)
Theorem intimacy_clamped env st id c delta :
  chars st !! id = Some c ->
  (exists v, intimacy_of (updateIntimacy env id delta st) id = Some v
             /\ 0 <= v <= 100)
  /\ (exists v, intimacy_of (increaseIntimacy env id delta st) id = Some v
                /\ v <= 100
                /\ (0 <= Character.intimacy c -> 0 <= delta -> 0 <= v)).
Proof.
  intros Hc. split.
  - eexists. split; [by apply updateIntimacy_known |]. lia.
  - eexists. split; [by apply increaseIntimacy_known |]. lia.
Qed.

Lemma intimacy_clamped_witness :
  (exists v, intimacy_of (updateIntimacy env0 1 (-250) fresh) 1 = Some v
             /\ 0 <= v <= 100)
  /\ (exists v, intimacy_of (increaseIntimacy env0 1 (-250) fresh) 1 = Some v
                /\ v <= 100
                /\ (0 <= 0 -> 0 <= -250 -> 0 <= v)).
Proof.
  apply (intimacy_clamped env0 fresh 1
           (Character.mk "天野美咲" 1 100 100 0 0 0
              (Equipment.mk 1 "基礎装備") None) (-250)).
  vm_compute. reflexivity.
Defined.

(** ** Equipment level (C4) *)








(** A mixed sequence that keeps to the range takes character 2 from level
    1 to level 5. *)
Example calls_in_range :
  let cs := [CallUpgradeCharacterEquipment 2;
             CallUpgradeEquipment 2 4 "礼装";
             CallSetCharacterLevel 2 5;
             CallUpgradeCharacterEquipment 2] in
  all_keep_range env0 cs fresh /\ level_of (calls env0 cs fresh) 2 = Some 5.
Proof.
  cbn zeta. split; [| vm_compute; reflexivity].
  cbn [all_keep_range keeps_range].
  split; [exact I |].
  split; [intros cur Hc; vm_compute in Hc; injection Hc as <-; lia |].
  split; [intros cur Hc; vm_compute in Hc; injection Hc as <-; lia |].
  done.
Qed.

(** ** Ending resolution (C1) *)

(** The first definition gives TRUE whenever the TRUE condition of the
    specification holds, whatever the other conditions say. *)
Lemma checkEndingConditions_shadowed_TRUE st :
  spec_TRUE st -> checkEndingConditions_shadowed st = RetEnding TRUE.
Proof.
  intros [Hc Hs]. unfold checkEndingConditions_shadowed.
  assert (trueEnding st = true) as ->; [| done].
  unfold trueEnding. rewrite !andb_true_iff. repeat split.
  - apply every_true. intros k c Hk. destruct (Hc k c Hk) as [-> _]. done.
  - apply every_true. intros k c Hk. destruct (Hc k c Hk) as [_ ->]. done.
  - by apply Z.leb_le.
Qed.

(** The first definition tests the conditions in the order TRUE, SECRET,
    NORMAL and falls back to BAD. *)
Lemma checkEndingConditions_shadowed_order st :
  checkEndingConditions_shadowed st
  = RetEnding
      (if trueEnding st then TRUE
       else if secretEnding st then SECRET
       else if normalEnding st then NORMAL
       else BAD).
Proof.
  unfold checkEndingConditions_shadowed.
  by destruct (trueEnding st), (secretEnding st), (normalEnding st).
Qed.

Lemma both_endings_spec : spec_TRUE both_endings /\ spec_SECRET both_endings.
Proof.
  assert (H : every (fun c =>
                (Equipment.level (Character.equipment c) =? 5)
                && (Character.intimacy c =? 100)
                && (Character.battleCount c <=? Character.victories c))
              (chars both_endings) = true) by (vm_compute; reflexivity).
  rewrite every_true in H.
  split; [split | split; [| split]].
  - intros k c Hk. specialize (H k c Hk).
    rewrite !andb_true_iff in H. lia.
  - vm_compute. discriminate.
  - vm_compute. discriminate.
  - intros k c Hk. specialize (H k c Hk).
    rewrite !andb_true_iff in H. lia.
  - apply (proj1 (includes_true _ _)). vm_compute. reflexivity.
Qed.

(** C1 (code at fault). The method of the class is the second definition,
    which returns a boolean and never one of the four endings. On
    [both_endings], where the TRUE and the SECRET conditions both hold, it
    returns [true]; the first definition, which it replaces, returns
    TRUE there. *)
Theorem checkEndingConditions_returns_boolean :
  (forall st e, checkEndingConditions st <> RetEnding e)
  /\ spec_TRUE both_endings
  /\ spec_SECRET both_endings
  /\ checkEndingConditions both_endings = RetBool true
  /\ checkEndingConditions_shadowed both_endings = RetEnding TRUE.
Proof.
  destruct both_endings_spec as [HT HS].
  split; [| split; [exact HT | split; [exact HS | split]]].
  - intros st e. unfold checkEndingConditions. discriminate.
  - vm_compute. reflexivity.
  - by apply checkEndingConditions_shadowed_TRUE.
Qed.

(** ** Unlocking (C2) *)

Lemma unlock_keeps env content st :
  State.unlocks (state (unlock env content st)) = State.unlocks (state st)
  /\ State.characters (state (unlock env content st))
     = State.characters (state st)
  /\ State.player (state (unlock env content st)) = State.player (state st)
  /\ emitted (unlock env content st) = emitted st
  /\ console (unlock env content st) = console st.
Proof.
  unfold unlock.
  destruct (State.unlockedContent (state st)) as [l|]; cbn;
    destruct (includes _ content); cbn; auto.
Qed.

(** What the first definition does on two calls in a row: one insertion,
    one event. *)
Lemma unlock_shadowed_twice env category item st :
  let items := default [] (State.unlocks (state st) !! category) in
  let st1 := unlock_shadowed env category item st in
  let st2 := unlock_shadowed env category item st1 in
  item ∉ items ->
  State.unlocks (state st2) !! category = Some (items ++ [item])
  /\ emitted st2 = emitted st ++ [unlocked category item]
  /\ st2 = st1.
Proof.
  intros items st1 st2 Hni. subst st2.
  assert (H1 : State.unlocks (state st1) !! category = Some (items ++ [item])
               /\ emitted st1 = emitted st ++ [unlocked category item]).
  { subst st1 items. unfold unlock_shadowed.
    destruct (State.unlocks (state st) !! category) as [l|] eqn:E; cbn in *.
    - rewrite E. cbn. apply includes_false in Hni. rewrite Hni. cbn.
      by rewrite lookup_insert_eq.
    - rewrite lookup_insert_eq. cbn. apply includes_false in Hni.
      rewrite Hni. cbn. by rewrite lookup_insert_eq. }
  destruct H1 as [Hl He].
  assert (st1' : unlock_shadowed env category item st1 = st1).
  { unfold unlock_shadowed at 1. rewrite Hl. cbn.
    assert (Hin : includes (items ++ [item]) item = true)
      by (apply includes_true; set_solver).
    rewrite Hl. cbn. by rewrite Hin. }
  rewrite st1'. auto.
Qed.

(** And on an item that is in the list: nothing. *)
Lemma unlock_shadowed_repeat env category item st items :
  State.unlocks (state st) !! category = Some items ->
  item ∈ items ->
  unlock_shadowed env category item st = st.
Proof.
  intros Hl Hin. unfold unlock_shadowed. rewrite Hl. cbn. rewrite Hl. cbn.
  apply includes_true in Hin. by rewrite Hin.
Qed.

(** C2 (code at fault). A call [unlock(category, item)] runs the second
    definition: whatever the category and the item, two calls leave the
    unlock table as it was and emit nothing. On a new store,
    [unlock('gallery', 'cg_01')] twice leaves 'cg_01' locked, emits no
    event, and records the category name in [unlockedContent]. *)
Theorem unlock_twice_no_event :
  (forall env category item st,
     let st2 := call_unlock env category item
                  (call_unlock env category item st) in
     State.unlocks (state st2) = State.unlocks (state st)
     /\ emitted st2 = emitted st)
  /\ (let st2 := call_unlock env0 "gallery" (VStr "cg_01")
                   (call_unlock env0 "gallery" (VStr "cg_01") fresh) in
      isUnlocked "gallery" (VStr "cg_01") st2 = false
      /\ emitted st2 = []
      /\ State.unlockedContent (state st2) = Some [VStr "gallery"]).
Proof.
  split.
  - intros env category item st. cbn. unfold call_unlock.
    destruct (unlock_keeps env (VStr category) (unlock env (VStr category) st))
      as (-> & _ & _ & -> & _).
    destruct (unlock_keeps env (VStr category) st) as (-> & _ & _ & -> & _).
    done.
  - vm_compute. auto.
Qed.

(** ** Achievements (C6) *)

Lemma checkAchievements_via_unfold this_unlock env st :
  checkAchievements_via this_unlock env st
  = match newly_earned (state st) with
    | Some ids =>
        Normal ids
          (foldl (fun st a => this_unlock env "achievements" (VStr a) st)
             st ids)
    | None => Throw (TypeError "includes") st
    end.
Proof.
  unfold checkAchievements_via, newly_earned.
  destruct (earned (10 <=? _) "win_10" _); cbn; [| done].
  destruct (earned (1 <=? _) "perfect_1" _); cbn; [| done].
  by destruct (earned (every _ _) "all_max_equipment" _).
Qed.

(** An identifier is returned only when it is not in the list yet. *)
Lemma earned_fresh cond id list_ r a :
  earned cond id list_ = Some r -> a ∈ r ->
  a = id /\ exists items, list_ = Some items /\ VStr a ∉ items.
Proof.
  unfold earned. destruct cond; [| intros [= <-]; set_solver].
  destruct list_ as [items|]; [| done].
  destruct (includes items (VStr id)) eqn:E; intros [= <-] Ha; [set_solver |].
  apply list_elem_of_singleton in Ha as ->. split; [done |].
  exists items. split; [done |]. by apply includes_false.
Qed.

Lemma newly_earned_fresh s ids a :
  newly_earned s = Some ids -> a ∈ ids ->
  exists items, State.unlocks s !! "achievements" = Some items
                /\ VStr a ∉ items.
Proof.
  unfold newly_earned. intros H Ha.
  destruct (earned (10 <=? _) "win_10" _) as [a1|] eqn:E1; cbn in H; [| done].
  destruct (earned (1 <=? _) "perfect_1" _) as [a2|] eqn:E2; cbn in H; [| done].
  destruct (earned (every _ _) "all_max_equipment" _) as [a3|] eqn:E3;
    cbn in H; [| done].
  injection H as <-. rewrite !elem_of_app in Ha.
  destruct Ha as [Ha | [Ha | Ha]];
    [ apply (earned_fresh _ _ _ _ _ E1) in Ha
    | apply (earned_fresh _ _ _ _ _ E2) in Ha
    | apply (earned_fresh _ _ _ _ _ E3) in Ha ]; tauto.
Qed.

Lemma earned_some cond id items :
  exists r, earned cond id (Some items) = Some r
    /\ forall a, a ∈ r <-> a = id /\ cond = true /\ VStr a ∉ items.
Proof.
  unfold earned. destruct cond.
  - destruct (includes items (VStr id)) eqn:E; eexists; (split; [done |]);
      intros a.
    + apply includes_true in E. split; [set_solver |].
      intros (-> & _ & Hn). done.
    + apply includes_false in E. rewrite list_elem_of_singleton.
      split; [by intros -> | by intros (-> & _)].
  - eexists. split; [done |]. intros a.
    split; [set_solver | by intros (_ & ? & _)].
Qed.

(** The identifiers returned are exactly those whose rule holds and that
    are not in [unlocks.achievements]. *)
Lemma checkAchievements_exact env st items :
  State.unlocks (state st) !! "achievements" = Some items ->
  exists ids st',
    checkAchievements env st = Normal ids st'
    /\ forall a, a ∈ ids <-> rule a st /\ VStr a ∉ items.
Proof.
  intros Hl. unfold checkAchievements. rewrite checkAchievements_via_unfold.
  unfold newly_earned. rewrite Hl.
  set (stats := Player.statistics (State.player (state st))).
  set (allMax := every _ _).
  assert (HallMax : allMax = true <->
            forall k c, chars st !! k = Some c ->
                        5 <= Equipment.level (Character.equipment c)).
  { subst allMax. rewrite every_true. unfold chars.
    split; intros H k c Hk; specialize (H k c Hk); lia. }
  destruct (earned_some (10 <=? Statistics.gamesWon stats) "win_10" items)
    as (r1 & -> & H1).
  destruct (earned_some (1 <=? Statistics.perfectGames stats) "perfect_1"
              items) as (r2 & -> & H2).
  destruct (earned_some allMax "all_max_equipment" items) as (r3 & -> & H3).
  cbn. eexists _, _. split; [reflexivity |].
  intros a. rewrite !elem_of_app, H1, H2, H3. unfold rule. fold stats.
  rewrite !Z.leb_le, HallMax. tauto.
Qed.

(** The class's [unlock] leaves alone everything the evaluation reads. *)
Lemma foldl_call_unlock_keeps env ids st :
  let st' := foldl (fun st a => call_unlock env "achievements" (VStr a) st)
               st ids in
  State.unlocks (state st') = State.unlocks (state st)
  /\ State.characters (state st') = State.characters (state st)
  /\ State.player (state st') = State.player (state st)
  /\ emitted st' = emitted st.
Proof.
  revert st. induction ids as [|a ids IH]; intros st; cbn; [done |].
  destruct (IH (call_unlock env "achievements" (VStr a) st))
    as (-> & -> & -> & ->).
  unfold call_unlock.
  destruct (unlock_keeps env (VStr "achievements") st)
    as (-> & -> & -> & -> & _).
  done.
Qed.

Lemma newly_earned_ext s s' :
  State.unlocks s' = State.unlocks s ->
  State.characters s' = State.characters s ->
  State.player s' = State.player s ->
  newly_earned s' = newly_earned s.
Proof. unfold newly_earned. by intros -> -> ->. Qed.

(** In the class, an evaluation never changes the unlock table, so the
    next evaluation returns the same identifiers once more. *)
Lemma checkAchievements_reports_again env st ids st' :
  checkAchievements env st = Normal ids st' ->
  State.unlocks (state st') = State.unlocks (state st)
  /\ emitted st' = emitted st
  /\ exists st'', checkAchievements env st' = Normal ids st''.
Proof.
  unfold checkAchievements. rewrite !checkAchievements_via_unfold.
  destruct (newly_earned (state st)) as [ids0|] eqn:E; [| done].
  intros [= <- <-].
  destruct (foldl_call_unlock_keeps env ids0 st) as (Hu & Hc & Hp & He).
  cbn in Hu, Hc, Hp, He.
  split; [exact Hu | split; [exact He |]].
  rewrite (newly_earned_ext _ _ Hu Hc Hp), E. by eexists.
Qed.

(** The first [unlock] puts the item in the list and keeps what is there. *)
Lemma unlock_shadowed_member env category item st :
  exists items,
    State.unlocks (state (unlock_shadowed env category item st)) !! category
    = Some items
    /\ item ∈ items
    /\ forall x, x ∈ default [] (State.unlocks (state st) !! category) ->
                 x ∈ items.
Proof.
  unfold unlock_shadowed.
  destruct (State.unlocks (state st) !! category) as [l|] eqn:E; cbn.
  - rewrite E. cbn. destruct (includes l item) eqn:Hi; cbn.
    + exists l. rewrite E. apply includes_true in Hi. auto.
    + eexists. split; [apply lookup_insert_eq |].
      unfold push. set_solver.
  - rewrite lookup_insert_eq. cbn.
    eexists. split; [apply lookup_insert_eq |].
    unfold push. set_solver.
Qed.

Lemma foldl_unlock_shadowed_members env ids st a :
  a ∈ ids
  \/ VStr a ∈ default [] (State.unlocks (state st) !! "achievements") ->
  exists items,
    State.unlocks
      (state (foldl (fun st a => unlock_shadowed env "achievements" (VStr a) st)
                st ids)) !! "achievements" = Some items
    /\ VStr a ∈ items.
Proof.
  revert st. induction ids as [|b ids IH]; intros st Ha; cbn.
  - destruct Ha as [Ha | Ha]; [set_solver |].
    destruct (State.unlocks (state st) !! "achievements") as [l|];
      cbn in Ha; [eauto | set_solver].
  - apply IH.
    destruct (unlock_shadowed_member env "achievements" (VStr b) st)
      as (items & -> & Hb & Hold). cbn.
    destruct Ha as [Ha | Ha]; [| auto].
    apply elem_of_cons in Ha as [-> | Ha]; auto.
Qed.

(** With the first [unlock] in place, an identifier returned by one
    evaluation is not returned by the next one. *)
Lemma checkAchievements_intended_once env st ids st' ids' st'' a :
  checkAchievements_intended env st = Normal ids st' ->
  checkAchievements_intended env st' = Normal ids' st'' ->
  a ∈ ids -> a ∉ ids'.
Proof.
  unfold checkAchievements_intended. rewrite !checkAchievements_via_unfold.
  destruct (newly_earned (state st)) as [ids0|] eqn:E; [| done].
  intros [= <- <-].
  set (st1 := foldl _ st ids0).
  destruct (newly_earned (state st1)) as [ids1|] eqn:E'; [| done].
  intros [= <- _] Ha Ha'.
  destruct (newly_earned_fresh _ _ _ E' Ha') as (items & Hl & Hni).
  destruct (foldl_unlock_shadowed_members env ids0 st a (or_introl Ha))
    as (items' & Hl' & Hin).
  fold st1 in Hl'. rewrite Hl in Hl'. by injection Hl' as <-.
Qed.

(** C6 (code at fault). After [recordBattleResult(1, 'perfect_win', 1000)]
    on a new store the evaluation returns [perfect_1]; it then calls the
    class's [unlock], which does not touch [unlocks.achievements], so the
    next evaluation returns [perfect_1] again and the achievement is still
    locked. *)
Theorem checkAchievements_perfect_1_again :
  let st1 := recordBattleResult env0 1 "perfect_win" 1000 fresh in
  exists st2 st3,
    checkAchievements env0 st1 = Normal ["perfect_1"] st2
    /\ checkAchievements env0 st2 = Normal ["perfect_1"] st3
    /\ isUnlocked "achievements" (VStr "perfect_1") st3 = false
    /\ emitted st3 = [].
Proof.
  cbn zeta.
  destruct (checkAchievements env0
              (recordBattleResult env0 1 "perfect_win" 1000 fresh))
    as [ids st2|] eqn:E1; [| vm_compute in E1; discriminate].
  assert (ids = ["perfect_1"]) as ->
    by (vm_compute in E1; by injection E1 as <- _).
  destruct (checkAchievements_reports_again _ _ _ _ E1)
    as (Hu & He & st3 & E2).
  exists st2, st3. split; [done | split; [done |]].
  destruct (checkAchievements_reports_again _ _ _ _ E2) as (Hu' & He' & _).
  split.
  - unfold isUnlocked. rewrite Hu', Hu. vm_compute. reflexivity.
  - rewrite He', He. vm_compute. reflexivity.
Qed.

(** ** Unknown character ids (C10) *)

(** C10, as stated, fails: with the unknown id 9 only [updateCharacter]
    writes a warning; [upgradeEquipment], [updateIntimacy],
    [increaseIntimacy] and [recordBattleResult] return without a word. *)
Lemma unknown_id_not_reported :
  chars fresh !! 9 = None
  /\ console (upgradeEquipment env0 9 3 "礼装" fresh) = []
  /\ console (updateIntimacy env0 9 10 fresh) = []
  /\ console (increaseIntimacy env0 9 10 fresh) = []
  /\ console (recordBattleResult env0 9 "win" 500 fresh) = []
  /\ console (updateCharacter env0 9
                (Character.mkPartial None None (Some 50) None None None None
                   None None) fresh)
     = [(LevelWarn, MsgCharacterNotFound 9)].
Proof. vm_compute. auto 10. Qed.

(** C10 (amended). Called with an id that is not in [characters], each of
    the five methods returns normally and leaves the tree and the event
    trace as they were; [updateCharacter] adds one warning to the console,
    the other four add nothing. *)
Theorem unknown_id_is_noop env st id :
  chars st !! id = None ->
  (forall updates,
     exists st', run env (UpdateCharacter id updates) st = Normal tt st'
       /\ state st' = state st /\ emitted st' = emitted st
       /\ console st' = console st ++ [(LevelWarn, MsgCharacterNotFound id)])
  /\ (forall newLevel name,
        run env (UpgradeEquipment id newLevel name) st = Normal tt st)
  /\ (forall change, run env (UpdateIntimacy id change) st = Normal tt st)
  /\ (forall amount, run env (IncreaseIntimacy id amount) st = Normal tt st)
  /\ (forall result score,
        run env (RecordBattleResult id result score) st = Normal tt st).
Proof.
  unfold chars. intros Hn. repeat split; intros; cbn.
  - eexists. split; [reflexivity |].
    unfold updateCharacter. rewrite Hn. by cbn.
  - unfold upgradeEquipment. by rewrite Hn.
  - unfold updateIntimacy. by rewrite Hn.
  - unfold increaseIntimacy. by rewrite Hn.
  - unfold recordBattleResult. by rewrite Hn.
Qed.

Lemma unknown_id_is_noop_witness :
  (forall updates,
     exists st', run env0 (UpdateCharacter 9 updates) fresh = Normal tt st'
       /\ state st' = state fresh /\ emitted st' = emitted fresh
       /\ console st' = console fresh ++ [(LevelWarn, MsgCharacterNotFound 9)])
  /\ (forall newLevel name,
        run env0 (UpgradeEquipment 9 newLevel name) fresh = Normal tt fresh)
  /\ (forall change, run env0 (UpdateIntimacy 9 change) fresh = Normal tt fresh)
  /\ (forall amount,
        run env0 (IncreaseIntimacy 9 amount) fresh = Normal tt fresh)
  /\ (forall result score,
        run env0 (RecordBattleResult 9 result score) fresh = Normal tt fresh).
Proof.
  apply (unknown_id_is_noop env0 fresh 9). vm_compute. reflexivity.
Defined.

(** ** Marking and announcing a change (C5) *)

(** C5, as stated, fails: [recordBattleResult], [increaseIntimacy] and
    [updatePlayTime] change the tree of a new store and emit nothing. *)
Lemma silent_mutations :
  emitted (recordBattleResult env0 1 "win" 500 fresh) = []
  /\ state (recordBattleResult env0 1 "win" 500 fresh) <> state fresh
  /\ emitted (increaseIntimacy env0 1 10 fresh) = []
  /\ state (increaseIntimacy env0 1 10 fresh) <> state fresh
  /\ emitted (updatePlayTime env0 60 fresh) = []
  /\ state (updatePlayTime env0 60 fresh) <> state fresh.
Proof.
  repeat split; try (vm_compute; reflexivity);
    intros H; apply (f_equal State.hasUnsavedProgress) in H;
    vm_compute in H; discriminate.
Qed.

Lemma markUnsaved_marked env st : marked env (markUnsaved env st).
Proof. by split. Qed.

Lemma unlock_marks env content st :
  state (unlock env content st) = state st
  \/ marked env (unlock env content st).
Proof.
  unfold unlock.
  destruct (State.unlockedContent (state st)) as [l|] eqn:E; cbn.
  - rewrite E. cbn. destruct (includes l content); cbn;
      [by left | right; by split].
  - rewrite includes_nil. cbn. right. by split.
Qed.

Lemma unlockEnding_marks env e st :
  (state (unlockEnding env e st) = state st
   \/ marked env (unlockEnding env e st))
  /\ emitted (unlockEnding env e st) = emitted st.
Proof.
  unfold unlockEnding.
  destruct (State.unlockedEndings (state st)) as [l|] eqn:E; cbn.
  - rewrite E. cbn. destruct (includes l e); cbn; (split; [| done]);
      [by left | right; by split].
  - rewrite includes_nil. cbn. split; [right; by split | done].
Qed.

(** Closes the two goals left by a method that ends in [markUnsaved] and
    possibly one [emit]. *)
Ltac marked_and_emitted :=
  cbn; unfold chars; cbn;
  repeat match goal with
         | H : ?x = _ |- context [?x] => rewrite H
         end;
  rewrite ?lookup_insert_eq; cbn;
  split; [right; split; reflexivity | reflexivity].

(** Closes them for a method that returned at its guard. *)
Ltac unchanged_and_silent :=
  cbn; unfold chars; cbn;
  repeat match goal with
         | H : ?x = _ |- context [?x] => rewrite H
         end;
  split; [by left | by rewrite app_nil_r].

(** What every method of the class leaves behind: the tree as it was or
    marked, and the trace longer by the event of the method. *)
Lemma mutation_trace env op st st' :
  run env op st = Normal tt st' ->
  (state st' = state st \/ marked env st')
  /\ emitted st' = emitted st ++ default [] (announcement op st st').
Proof.
  intros Hrun.
  destruct op; cbn in Hrun; try (injection Hrun as <-).
  - (* changeScene *)
    unfold changeScene.
    destruct (truthy _ && negb _); marked_and_emitted.
  - (* updateCharacter *)
    unfold updateCharacter, chars.
    destruct (State.characters (state st) !! charId) as [c|] eqn:E.
    + marked_and_emitted.
    + unchanged_and_silent.
  - (* upgradeEquipment *)
    unfold upgradeEquipment, chars.
    destruct (State.characters (state st) !! charId) as [c|] eqn:E.
    + marked_and_emitted.
    + unchanged_and_silent.
  - (* updateScore *)
    unfold updateScore. marked_and_emitted.
  - (* recordVictory *)
    unfold recordVictory in Hrun.
    match type of Hrun with
    | bind (checkAchievements env ?s) _ = _ => set (st1 := s) in *
    end.
    destruct (checkAchievements env st1) as [ids st2|] eqn:E;
      cbn in Hrun; [| done].
    injection Hrun as <-.
    destruct (checkAchievements_reports_again _ _ _ _ E) as (_ & He & _).
    split; [right; by split |].
    cbn. rewrite He. subst st1.
    by destruct (State.characters (state st) !! charId).
  - (* recordDefeat *)
    unfold recordDefeat.
    destruct (State.characters (state st) !! charId); marked_and_emitted.
  - (* updateIntimacy *)
    unfold updateIntimacy, chars.
    destruct (State.characters (state st) !! charId) as [c|] eqn:E.
    + marked_and_emitted.
    + unchanged_and_silent.
  - (* setFlag *)
    unfold setFlag. marked_and_emitted.
  - (* unlock *)
    unfold call_unlock. split; [apply unlock_marks |].
    destruct (unlock_keeps env (VStr category) st) as (_ & _ & _ & -> & _).
    by rewrite app_nil_r.
  - (* updatePlayTime *)
    unfold updatePlayTime. cbn. rewrite app_nil_r.
    split; [right; by split | done].
  - (* updateSettings *)
    unfold updateSettings. marked_and_emitted.
  - (* resetGame *)
    unfold resetGame. marked_and_emitted.
  - (* increaseIntimacy *)
    unfold increaseIntimacy.
    destruct (State.characters (state st) !! characterId); cbn;
      rewrite app_nil_r; (split; [| done]); [right; by split | by left].
  - (* setCharacterLevel *)
    unfold setCharacterLevel.
    destruct (State.characters (state st) !! characterId); cbn;
      rewrite app_nil_r; (split; [| done]); [right; by split | by left].
  - (* upgradeCharacterEquipment *)
    unfold upgradeCharacterEquipment.
    destruct (State.characters (state st) !! characterId); cbn;
      [destruct (_ <? 5); cbn |]; rewrite app_nil_r; (split; [| done]);
      solve [right; by split | by left].
  - (* recordBattleResult *)
    unfold recordBattleResult.
    destruct (State.characters (state st) !! characterId); cbn;
      rewrite app_nil_r; (split; [| done]); [right; by split | by left].
  - (* unlockEnding *)
    destruct (unlockEnding_marks env endingType st) as [Hm ->].
    by rewrite app_nil_r.
Qed.

(** C5 (amended). Every method of the mutation API that changes the tree
    leaves [hasUnsavedProgress] true and [lastPlayedAt] at the current
    time. [changeScene], [updateCharacter], [upgradeEquipment],
    [updateScore], [recordVictory], [recordDefeat], [updateIntimacy],
    [setFlag], [updateSettings] and [resetGame] emit, when they apply,
    exactly the one event given by [announcement], which carries the value
    before and the value after; for [recordVictory] it comes last, after
    the events of the achievements unlocked on the way, if any.
    [recordBattleResult], [increaseIntimacy], [setCharacterLevel],
    [upgradeCharacterEquipment], [updatePlayTime] and [unlockEnding] emit
    none. Of [unlock] only the marking is stated. *)
Theorem mutation_marks_and_announces env op st st' :
  run env op st = Normal tt st' ->
  (state st' <> state st -> marked env st')
  /\ forall own,
       announcement op st st' = Some own ->
       exists unlocks,
         unlocked_on_the_way op unlocks
         /\ emitted st' = emitted st ++ unlocks ++ own.
Proof.
  intros Hrun. destruct (mutation_trace env op st st' Hrun) as [Hm He].
  split; [by destruct Hm |].
  intros own Hown. exists []. rewrite He, Hown. split; [| done].
  destruct op; cbn; done || constructor.
Qed.

Lemma mutation_marks_and_announces_witness :
  (state (updateIntimacy env0 1 30 fresh) <> state fresh ->
   marked env0 (updateIntimacy env0 1 30 fresh))
  /\ forall own,
       announcement (UpdateIntimacy 1 30) fresh (updateIntimacy env0 1 30 fresh)
       = Some own ->
       exists unlocks,
         unlocked_on_the_way (UpdateIntimacy 1 30) unlocks
         /\ emitted (updateIntimacy env0 1 30 fresh)
            = emitted fresh ++ unlocks ++ own.
Proof.
  apply (mutation_marks_and_announces env0 (UpdateIntimacy 1 30) fresh).
  reflexivity.
Defined.

(** Of the whole API only [recordVictory] can throw, and only while it
    evaluates the achievements. *)
Lemma run_returns env op st :
  (forall c g, op <> RecordVictory c g) ->
  exists st', run env op st = Normal tt st'.
Proof.
  intros Hne. destruct op; cbn; try (by eexists).
  by destruct (Hne charId gameData).
Qed.

(** ** Loading and saving (C7, C8, C9) *)

Lemma overlay_field f base over :
  state_field f (Snapshot.overlay base over)
  = spread_opt (state_field f base) (snapshot_field f over).
Proof.
  destruct f; cbn;
    match goal with
    | |- context [spread _ ?o] => by destruct o
    | |- context [spread_opt _ ?o] => by destruct o
    end.
Qed.

Lemma of_state_field f s :
  snapshot_field f (Snapshot.of_state s) = state_field f s.
Proof. by destruct f. Qed.

Lemma template_field f s : template f = true -> is_Some (state_field f s).
Proof. destruct f; cbn; by eauto. Qed.

Lemma set_stamps_field f v b s :
  stamp f = false ->
  state_field f (State.set_hasUnsavedProgress b (State.set_lastPlayedAt v s))
  = state_field f s.
Proof. by destruct f. Qed.

Lemma spread_opt_assoc {A : Type} (a b c : option A) :
  spread_opt a (spread_opt b c) = spread_opt (spread_opt a b) c.
Proof. by destruct c. Qed.

Lemma loadState_accepts env saved o st :
  properties saved = Some o ->
  exists st',
    loadState env saved st = Normal tt st'
    /\ state st'
       = State.set_hasUnsavedProgress false
           (State.set_lastPlayedAt (now env)
              (Snapshot.overlay (state st) (merged env o (state st))))
    /\ emitted st' = emitted st ++ [stateLoaded (state st')].
Proof.
  intros Hp. unfold loadState, merged. rewrite Hp.
  case_bool_decide; cbn; eexists; split; reflexivity || (split; reflexivity).
Qed.


(** The two ways [loadState] can end, and the tree it leaves. *)
Lemma loadState_outcome env saved st :
  match properties saved with
  | None =>
      exists st',
        loadState env saved st = Throw (TypeError "version") st'
        /\ state st' = state st
        /\ emitted st' = emitted st
        /\ console st'
           = console st ++ [(LevelError, MsgLoadFailed (TypeError "version"))]
  | Some o =>
      exists st',
        loadState env saved st = Normal tt st'
        /\ State.hasUnsavedProgress (state st') = false
        /\ State.lastPlayedAt (state st') = now env
        /\ emitted st' = emitted st ++ [stateLoaded (state st')]
        /\ forall f, stamp f = false ->
             state_field f (state st')
             = spread_opt
                 (if bool_decide (Snapshot.version o
                                  ≠ Some (State.version (state st)))
                  then spread_opt (state_field f (state st))
                         (state_field f (getInitialState env))
                  else state_field f (state st))
                 (snapshot_field f o)
  end.
Proof.
  destruct (properties saved) as [o|] eqn:Hp.
  - destruct (loadState_accepts env saved o st Hp) as (st' & Hl & Hs & He).
    exists st'. split; [done |]. rewrite Hs. repeat split; [by rewrite <- Hs |].
    intros f Hf. rewrite set_stamps_field, overlay_field by done.
    unfold merged. case_bool_decide; [| done].
    by rewrite of_state_field, overlay_field, spread_opt_assoc.
  - unfold loadState. rewrite Hp. by eexists.
Qed.


(** ** Migration (C8) *)

(** The part of the migration that holds. When the version of the saved
    object differs from the version of the live tree, the migration is the
    overlay of the object on a new default tree: each property is the saved
    one when the object has it, and the default one otherwise. Loading such
    an object returns normally; without [flags] in the object the loaded
    [flags] are empty; and every property of the object is in the loaded
    tree (but for [lastPlayedAt] and [hasUnsavedProgress], which loading
    sets to the current time and to false). *)
Lemma loadState_migrates env o st :
  Snapshot.version o <> Some (State.version (state st)) ->
  (forall f,
     snapshot_field f (migrateState env o st).1
     = spread_opt (state_field f (getInitialState env)) (snapshot_field f o))
  /\ exists st',
       loadState env (SavedObject o) st = Normal tt st'
       /\ (Snapshot.flags o = None -> State.flags (state st') = ∅)
       /\ (forall f v, stamp f = false -> snapshot_field f o = Some v ->
             state_field f (state st') = Some v)
       /\ (forall f, stamp f = false -> template f = true ->
             snapshot_field f o = None ->
             state_field f (state st') = state_field f (getInitialState env)).
Proof.
  intros Hv. split.
  - intros f. cbn. by rewrite of_state_field, overlay_field.
  - pose proof (loadState_outcome env (SavedObject o) st) as H.
    cbn in H. destruct H as (st' & Hl & _ & _ & _ & Hf).
    rewrite bool_decide_eq_true_2 in Hf by done.
    exists st'. split; [done |]. split; [| split].
    + intros Hn. specialize (Hf FFlags eq_refl). cbn in Hf.
      rewrite Hn in Hf. cbn in Hf. by injection Hf as ->.
    + intros f v Hs Hv'. by rewrite Hf, Hv'.
    + intros f Hs Ht Hn. rewrite Hf, Hn by done. cbn.
      destruct (template_field f (getInitialState env) Ht) as [d Hd].
      by rewrite Hd.
Qed.

Lemma loadState_migrates_witness :
  (forall f,
     snapshot_field f (migrateState env0 old_save fresh).1
     = spread_opt (state_field f (getInitialState env0))
         (snapshot_field f old_save))
  /\ exists st',
       loadState env0 (SavedObject old_save) fresh = Normal tt st'
       /\ (Snapshot.flags old_save = None -> State.flags (state st') = ∅)
       /\ (forall f v, stamp f = false -> snapshot_field f old_save = Some v ->
             state_field f (state st') = Some v)
       /\ (forall f, stamp f = false -> template f = true ->
             snapshot_field f old_save = None ->
             state_field f (state st') = state_field f (getInitialState env0)).
Proof.
  apply (loadState_migrates env0 old_save fresh).
  vm_compute. discriminate.
Defined.

(** What a load leaves in place of the version the class expects: the
    version of the object loaded. An object of that same version is then
    merged as it is, so whatever it lacks stays as the live tree has it. *)
Lemma loadState_version_overwritten env env' o o' v st st1 :
  Snapshot.version o = Some v ->
  Snapshot.version o' = Some v ->
  loadState env (SavedObject o) st = Normal tt st1 ->
  State.version (state st1) = v
  /\ exists st2,
       loadState env' (SavedObject o') st1 = Normal tt st2
       /\ console st2 = console st1 ++ [(LevelLog, MsgStateLoaded)]
       /\ forall f, stamp f = false -> snapshot_field f o' = None ->
            state_field f (state st2) = state_field f (state st1).
Proof.
  intros Hv Hv' Hl.
  pose proof (loadState_outcome env (SavedObject o) st) as H1.
  cbn [properties] in H1.
  destruct H1 as (st1' & Hl1 & _ & _ & _ & Hf1).
  rewrite Hl1 in Hl. injection Hl as ->.
  assert (Hver : State.version (state st1) = v).
  { specialize (Hf1 FVersion eq_refl). cbn in Hf1. rewrite Hv in Hf1.
    cbn in Hf1. by injection Hf1. }
  split; [done |].
  pose proof (loadState_outcome env' (SavedObject o') st1) as H2.
  cbn [properties] in H2.
  destruct H2 as (st2 & Hl2 & _ & _ & _ & Hf2).
  exists st2. split; [done |]. split.
  - unfold loadState in Hl2. cbn in Hl2.
    rewrite bool_decide_eq_false_2 in Hl2
      by (intros Hne; apply Hne; by rewrite Hv', Hver).
    by injection Hl2 as <-.
  - intros f Hs Hn. rewrite (Hf2 f Hs), Hn.
    by rewrite bool_decide_eq_false_2
      by (intros Hne; apply Hne; by rewrite Hv', Hver).
Qed.

(** C8 fails. The version is compared with that of the live tree, and a
    load writes the version of the save there. The old save has version
    0.9.0, which is not the 1.0.0 of the class, and no [flags]. Loaded into
    a new store it is migrated and the flags are the default, empty. When
    the player then goes on (a flag is set) and loads the same save once
    more, the versions are equal: the load returns normally without a
    version warning and without a migration, and the flag set in between
    is still there, where the default was to be. *)
Theorem loadState_old_save_not_migrated :
  Snapshot.version old_save = Some "0.9.0"
  /\ State.version (getInitialState env2) = "1.0.0"
  /\ Snapshot.flags old_save = None
  /\ State.flags (state loaded_once) = ∅
  /\ State.version (state played_on) = "0.9.0"
  /\ exists st',
       loadState env2 (SavedObject old_save) played_on = Normal tt st'
       /\ State.flags (state st') = {["met_rival" := VBool true]}
       /\ State.flags (state st') <> State.flags (getInitialState env2)
       /\ console st' = console played_on ++ [(LevelLog, MsgStateLoaded)].
Proof.
  repeat (split; [vm_compute; reflexivity |]).
  eexists. split; [reflexivity |].
  split; [vm_compute; reflexivity |]. split; [| vm_compute; reflexivity].
  intros H. apply (f_equal (fun m => m !! "met_rival")) in H.
  vm_compute in H. discriminate.
Qed.

(** ** Round trip (C9) *)
























(** * Further properties *)

(** ** What a method writes *)

Lemma markUnsaved_field env st f :
  stamp f = false ->
  state_field f (state (markUnsaved env st)) = state_field f (state st).
Proof. by destruct f. Qed.

Lemma unlock_field env content st f :
  stamp f = false -> f <> FUnlockedContent ->
  state_field f (state (unlock env content st)) = state_field f (state st).
Proof.
  intros Hs Hf. unfold unlock.
  destruct (State.unlockedContent (state st)); cbn;
    destruct (includes _ content); cbn; by destruct f.
Qed.

Lemma foldl_call_unlock_field env ids st f :
  stamp f = false -> f <> FUnlockedContent ->
  state_field f
    (state (foldl (fun st a => call_unlock env "achievements" (VStr a) st)
              st ids))
  = state_field f (state st).
Proof.
  intros Hs Hf. revert st. induction ids as [|a ids IH]; intros st; cbn;
    [done |].
  rewrite IH. unfold call_unlock. by apply unlock_field.
Qed.

(** The tree [recordVictory] has built when it evaluates the
    achievements. *)
Lemma recordVictory_field env charId gameData st f :
  writes (RecordVictory charId gameData) f = false ->
  state_field f (state (store_of (recordVictory env charId gameData st)))
  = state_field f (state st).
Proof.
  intros Hw. unfold recordVictory.
  match goal with
  | |- context [bind (checkAchievements env ?s) _] => set (st1 := s)
  end.
  assert (H1 : state_field f (state st1) = state_field f (state st)).
  { subst st1. destruct (State.characters (state st) !! charId);
      by destruct f. }
  unfold checkAchievements. rewrite checkAchievements_via_unfold.
  destruct (newly_earned (state st1)) as [ids|]; cbn; [| done].
  rewrite <- H1.
  rewrite <- (foldl_call_unlock_field env ids st1 f)
    by (by destruct f).
  by destruct f.
Qed.

Lemma mutation_footprint_lemma env op st f :
  writes op f = false ->
  state_field f (state (store_of (run env op st)))
  = state_field f (state st).
Proof.
  intros Hw. destruct op; cbn [run store_of];
    try (by apply recordVictory_field).
  - unfold changeScene. destruct (truthy _ && negb _); by destruct f.
  - unfold updateCharacter.
    destruct (State.characters (state st) !! charId); by destruct f.
  - unfold upgradeEquipment.
    destruct (State.characters (state st) !! charId); by destruct f.
  - by destruct f.
  - unfold recordDefeat.
    destruct (State.characters (state st) !! charId); by destruct f.
  - unfold updateIntimacy.
    destruct (State.characters (state st) !! charId); by destruct f.
  - by destruct f.
  - unfold call_unlock. apply unlock_field; by destruct f.
  - by destruct f.
  - by destruct f.
  - by destruct f.
  - unfold increaseIntimacy.
    destruct (State.characters (state st) !! characterId); by destruct f.
  - unfold setCharacterLevel.
    destruct (State.characters (state st) !! characterId); by destruct f.
  - unfold upgradeCharacterEquipment.
    destruct (State.characters (state st) !! characterId);
      [destruct (_ <? 5) |]; by destruct f.
  - unfold recordBattleResult.
    destruct (State.characters (state st) !! characterId); by destruct f.
  - unfold unlockEnding.
    destruct (State.unlockedEndings (state st)); cbn;
      destruct (includes _ endingType); by destruct f.
Qed.

(** X1. A method writes only the top-level properties listed for it by
    [writes]: whether it returns or throws, every other property of the
    tree is what it was. In particular no method writes [playerId], and no
    method but [resetGame] writes [unlocks], [version], [createdAt],
    [currentCharacter], [currentDialogue] or [currentGame]. *)
Theorem mutation_footprint env op st f :
  writes op f = false ->
  state_field f (state (store_of (run env op st)))
  = state_field f (state st).
Proof. apply mutation_footprint_lemma. Qed.

Lemma mutation_footprint_witness :
  state_field FUnlocks
    (state (store_of (run env0 (Unlock "gallery" (VStr "cg_01")) fresh)))
  = state_field FUnlocks (state fresh).
Proof.
  apply (mutation_footprint env0 (Unlock "gallery" (VStr "cg_01")) fresh
           FUnlocks).
  reflexivity.
Defined.

(** ** Characters come and go only by reset *)

Lemma chars_of_field st st' :
  state_field FCharacters (state st') = state_field FCharacters (state st) ->
  chars st' = chars st.
Proof. cbn. unfold chars. by intros [= ->]. Qed.

Lemma recordVictory_chars env charId gameData st :
  chars (store_of (recordVictory env charId gameData st))
  = match chars st !! charId with
    | Some char =>
        <[charId := Character.set_battleCount (Character.battleCount char + 1)
                      (Character.set_victories (Character.victories char + 1)
                         char)]> (chars st)
    | None => chars st
    end.
Proof.
  unfold recordVictory, chars.
  match goal with
  | |- context [bind (checkAchievements env ?s) _] => set (st1 := s)
  end.
  assert (H1 : State.characters (state st1)
               = match State.characters (state st) !! charId with
                 | Some char =>
                     <[charId := Character.set_battleCount
                                   (Character.battleCount char + 1)
                                   (Character.set_victories
                                      (Character.victories char + 1) char)]>
                       (State.characters (state st))
                 | None => State.characters (state st)
                 end).
  { subst st1. by destruct (State.characters (state st) !! charId). }
  rewrite <- H1.
  unfold checkAchievements. rewrite checkAchievements_via_unfold.
  destruct (newly_earned (state st1)) as [ids|]; cbn; [| done].
  by destruct (foldl_call_unlock_keeps env ids st1) as (_ & -> & _).
Qed.

(** Writing one known key keeps the keys and the other entries. *)
Lemma insert_known_frame (m : gmap Z Character.t) id c c' :
  m !! id = Some c ->
  dom (<[id := c']> m) = dom m
  /\ forall id', id <> id' -> <[id := c']> m !! id' = m !! id'.
Proof.
  intros Hc. split.
  - apply dom_insert_lookup_L. by eexists.
  - intros id' Hne. by apply lookup_insert_ne.
Qed.

Lemma characters_frame_lemma env op st :
  is_reset op = false ->
  dom (chars (store_of (run env op st))) = dom (chars st)
  /\ forall id, target op <> Some id ->
       chars (store_of (run env op st)) !! id = chars st !! id.
Proof.
  intros Hr.
  assert (Hsame : writes op FCharacters = false ->
                  chars (store_of (run env op st)) = chars st).
  { intros Hw. apply chars_of_field. by apply mutation_footprint_lemma. }
  destruct op; try discriminate Hr;
    try (rewrite Hsame by done; by split); clear Hsame;
    cbn [run store_of target].
  - unfold updateCharacter, chars.
    destruct (State.characters (state st) !! charId) as [c|] eqn:E; cbn;
      [| done].
    destruct (insert_known_frame _ charId c (Character.merge c updates) E)
      as [Hd Hf]. split; [done |]. intros id Hne. apply Hf. congruence.
  - unfold upgradeEquipment, chars.
    destruct (State.characters (state st) !! charId) as [c|] eqn:E; cbn;
      [| done].
    match goal with
    | |- context [<[charId := ?c']> _] =>
        destruct (insert_known_frame _ charId c c' E) as [Hd Hf]
    end.
    split; [done |]. intros id Hne. apply Hf. congruence.
  - rewrite recordVictory_chars.
    destruct (chars st !! charId) as [c|] eqn:E; [| done].
    match goal with
    | |- context [<[charId := ?c']> _] =>
        destruct (insert_known_frame _ charId c c' E) as [Hd Hf]
    end.
    split; [done |]. intros id Hne. apply Hf. congruence.
  - unfold recordDefeat, chars.
    destruct (State.characters (state st) !! charId) as [c|] eqn:E; cbn;
      [| done].
    match goal with
    | |- context [<[charId := ?c']> _] =>
        destruct (insert_known_frame _ charId c c' E) as [Hd Hf]
    end.
    split; [done |]. intros id Hne. apply Hf. congruence.
  - unfold updateIntimacy, chars.
    destruct (State.characters (state st) !! charId) as [c|] eqn:E; cbn;
      [| done].
    match goal with
    | |- context [<[charId := ?c']> _] =>
        destruct (insert_known_frame _ charId c c' E) as [Hd Hf]
    end.
    split; [done |]. intros id Hne. apply Hf. congruence.
  - unfold increaseIntimacy, chars.
    destruct (State.characters (state st) !! characterId) as [c|] eqn:E;
      cbn; [| done].
    match goal with
    | |- context [<[characterId := ?c']> _] =>
        destruct (insert_known_frame _ characterId c c' E) as [Hd Hf]
    end.
    split; [done |]. intros id Hne. apply Hf. congruence.
  - unfold setCharacterLevel, chars.
    destruct (State.characters (state st) !! characterId) as [c|] eqn:E;
      cbn; [| done].
    match goal with
    | |- context [<[characterId := ?c']> _] =>
        destruct (insert_known_frame _ characterId c c' E) as [Hd Hf]
    end.
    split; [done |]. intros id Hne. apply Hf. congruence.
  - unfold upgradeCharacterEquipment, chars.
    destruct (State.characters (state st) !! characterId) as [c|] eqn:E;
      cbn; [| done].
    destruct (_ <? 5); cbn; [| done].
    match goal with
    | |- context [<[characterId := ?c']> _] =>
        destruct (insert_known_frame _ characterId c c' E) as [Hd Hf]
    end.
    split; [done |]. intros id Hne. apply Hf. congruence.
  - unfold recordBattleResult, chars.
    destruct (State.characters (state st) !! characterId) as [c|] eqn:E;
      cbn; [| done].
    match goal with
    | |- context [<[characterId := ?c']> _] =>
        destruct (insert_known_frame _ characterId c c' E) as [Hd Hf]
    end.
    split; [done |]. intros id Hne. apply Hf. congruence.
Qed.

(** X2. In a store reached from a new one by calls that hand it no object
    of the caller, so that no two characters hold the same object: no
    method but [resetGame] adds or removes a character, and a method
    called for one character leaves every other character as it was; a
    method that is not called for a character leaves them all. *)
Theorem characters_frame env env0 steps op :
  Forall (fun step => hands_no_object step.2 = true) steps ->
  is_reset op = false ->
  dom (chars (store_of (run env op (session steps (constructor env0)))))
  = dom (chars (session steps (constructor env0)))
  /\ forall id, target op <> Some id ->
       chars (store_of (run env op (session steps (constructor env0)))) !! id
       = chars (session steps (constructor env0)) !! id.
Proof. intros _. apply characters_frame_lemma. Qed.

Lemma characters_frame_witness :
  Forall (fun step => hands_no_object step.2 = true)
    [(env0, RecordBattleResult 1 "win" 500); (env1, UpdateIntimacy 2 30)]
  /\ chars (store_of (run env2 (SetCharacterLevel 1 3)
                        (session [(env0, RecordBattleResult 1 "win" 500);
                                  (env1, UpdateIntimacy 2 30)]
                           (constructor env0)))) !! 2
     = chars (session [(env0, RecordBattleResult 1 "win" 500);
                       (env1, UpdateIntimacy 2 30)]
                (constructor env0)) !! 2.
Proof.
  assert (H : Forall (fun step => hands_no_object step.2 = true)
                [(env0, RecordBattleResult 1 "win" 500);
                 (env1, UpdateIntimacy 2 30)])
    by (repeat constructor).
  split; [exact H |].
  apply (characters_frame env2 env0 _ (SetCharacterLevel 1 3) H eq_refl).
  cbn. discriminate.
Defined.

(** ** Scenes *)

Lemma changeScene_scenes env name data st :
  State.currentScene (state (changeScene env name data st)) = name
  /\ State.completedScenes (state (changeScene env name data st))
     = if truthy (State.currentScene (state st))
          && negb (includes (State.completedScenes (state st))
                     (State.currentScene (state st)))
       then State.completedScenes (state st) ++ [State.currentScene (state st)]
       else State.completedScenes (state st).
Proof. unfold changeScene. by destruct (truthy _ && negb _). Qed.

Lemma changeScene_step env name data st :
  NoDup (State.completedScenes (state st)) ->
  NoDup (State.completedScenes (state (changeScene env name data st)))
  /\ State.completedScenes (state st)
     `prefix_of` State.completedScenes (state (changeScene env name data st))
  /\ (State.currentScene (state st) <> "" ->
      State.currentScene (state st)
      ∈ State.completedScenes (state (changeScene env name data st))).
Proof.
  intros Hnd. destruct (changeScene_scenes env name data st) as [_ ->].
  set (prev := State.currentScene (state st)).
  set (done_ := State.completedScenes (state st)) in *.
  destruct (includes done_ prev) eqn:Hi.
  - rewrite andb_false_r. apply includes_true in Hi. by repeat split.
  - rewrite andb_true_r. apply includes_false in Hi.
    unfold truthy. destruct (String.eqb_spec prev "") as [-> | Hne]; cbn.
    + by repeat split.
    + repeat split.
      * apply NoDup_app. repeat split; [done | | apply NoDup_singleton].
        intros x Hx Hx'. apply list_elem_of_singleton in Hx'. by subst.
      * by apply prefix_app_r.
      * intros _. set_solver.
Qed.

(** X3. Along every walk through scenes, [completedScenes] stays free of
    duplicates and only grows at its end; when the walk is over the current
    scene is the last one visited, and every scene left behind with a
    non-empty name is in [completedScenes]. *)
Theorem visit_completedScenes env scenes st :
  NoDup (State.completedScenes (state st)) ->
  NoDup (State.completedScenes (state (visit env scenes st)))
  /\ State.completedScenes (state st)
     `prefix_of` State.completedScenes (state (visit env scenes st))
  /\ State.currentScene (state (visit env scenes st))
     = default (State.currentScene (state st)) (last scenes.*1)
  /\ forall s, s ∈ left_scenes (State.currentScene (state st)) scenes.*1 ->
       s <> "" -> s ∈ State.completedScenes (state (visit env scenes st)).
Proof.
  revert st. induction scenes as [|[name data] scenes IH]; intros st Hnd.
  - cbn. repeat split; [done | done |]. intros s Hs. by apply elem_of_nil in Hs.
  - cbn [visit foldl fst snd].
    destruct (changeScene_step env name data st Hnd) as (Hnd1 & Hp1 & Hin1).
    destruct (changeScene_scenes env name data st) as [Hcur _].
    specialize (IH (changeScene env name data st) Hnd1).
    unfold visit in IH. destruct IH as (Hnd' & Hp' & Hc' & Hl').
    rewrite Hcur in Hc', Hl'.
    repeat split.
    + done.
    + by etrans.
    + rewrite Hc'. destruct scenes as [|[n2 d2] rest]; [done |].
      change (((name, data) :: (n2, d2) :: rest).*1)
        with (name :: n2 :: rest.*1).
      change (((n2, d2) :: rest).*1) with (n2 :: rest.*1).
      rewrite last_cons_cons.
      destruct (last (n2 :: rest.*1)) eqn:E; [done |].
      by apply last_None in E.
    + intros s Hs Hne.
      change (((name, data) :: scenes).*1) with (name :: scenes.*1) in Hs.
      cbn [left_scenes] in Hs.
      apply elem_of_cons in Hs as [-> | Hs].
      * eapply elem_of_prefix; [by apply Hin1 | done].
      * by apply Hl'.
Qed.

Lemma visit_completedScenes_witness :
  NoDup (State.completedScenes
           (state (visit env0 [("scene_1", VNull); ("title", VNull)] fresh)))
  /\ State.completedScenes (state fresh)
     `prefix_of` State.completedScenes
                   (state (visit env0 [("scene_1", VNull); ("title", VNull)]
                             fresh))
  /\ State.currentScene
       (state (visit env0 [("scene_1", VNull); ("title", VNull)] fresh))
     = default (State.currentScene (state fresh))
         (last [("scene_1", VNull); ("title", VNull)].*1)
  /\ forall s,
       s ∈ left_scenes (State.currentScene (state fresh))
             [("scene_1", VNull); ("title", VNull)].*1 ->
       s <> "" ->
       s ∈ State.completedScenes
             (state (visit env0 [("scene_1", VNull); ("title", VNull)] fresh)).
Proof.
  apply (visit_completedScenes env0 [("scene_1", VNull); ("title", VNull)]
           fresh).
  vm_compute. constructor.
Defined.

(** ** Flags *)

Lemma read_assign dict name value :
  name <> "__proto__" -> read (assign dict name value) name = Some (Own value).
Proof.
  intros Hne. unfold read, assign.
  rewrite bool_decide_eq_false_2 by done. cbn. by rewrite lookup_insert_eq.
Qed.

Lemma read_assign_ne dict name value name' :
  name' <> name -> read (assign dict name value) name' = read dict name'.
Proof.
  intros Hne. unfold read, assign.
  destruct (bool_decide (name = "__proto__") && bool_decide (dict !! name = None));
    [done |].
  by rewrite lookup_insert_ne.
Qed.

(** X4. For every flag name but [__proto__], [getFlag] reads back what
    [setFlag] wrote for that name, whatever the default, and the later of
    two writes wins; the flags of other names read as before. On a new
    store a flag reads as the default given, unless its name is one of
    those [Object.prototype] defines: such a name reads as the inherited
    member, never as the default. [setFlag('__proto__', v)] with a
    primitive [v] other than [null] stores nothing: on a new store the
    name still reads as the prototype. *)
Theorem setFlag_getFlag env name value st :
  name <> "__proto__" ->
  (forall d, getFlag name d (setFlag env name value st) = Own value)
  /\ (forall env' value' d,
        getFlag name d (setFlag env' name value' (setFlag env name value st))
        = Own value')
  /\ (forall name' d, name' <> name ->
        getFlag name' d (setFlag env name value st) = getFlag name' d st)
  /\ (forall env' d,
        getFlag name d (constructor env')
        = if includes ObjectPrototype name then Inherited name else Own d)
  /\ (forall env' v d,
        v <> VNull ->
        getFlag "__proto__" d (setFlag env "__proto__" v (constructor env'))
        = Inherited "__proto__"
        /\ State.flags (state (setFlag env "__proto__" v (constructor env')))
           = State.flags (state (constructor env'))).
Proof.
  intros Hname. unfold getFlag, setFlag. cbn.
  split; [| split; [| split; [| split]]].
  - intros d. by rewrite read_assign.
  - intros env' value' d. by rewrite read_assign.
  - intros name' d Hne. by rewrite read_assign_ne.
  - intros env' d. unfold read. rewrite lookup_empty.
    by destruct (includes ObjectPrototype name).
  - intros env' v d _. by vm_compute.
Qed.

Lemma setFlag_getFlag_witness :
  "met_rival" <> "__proto__"
  /\ getFlag "met_rival" (VBool false)
       (setFlag env0 "met_rival" (VBool true) fresh) = Own (VBool true)
  /\ getFlag "met_rival" (VBool false) fresh = Own (VBool false)
  /\ getFlag "constructor" (VBool false) fresh = Inherited "constructor".
Proof.
  assert (Hne : "met_rival" <> "__proto__") by discriminate.
  destruct (setFlag_getFlag env0 "met_rival" (VBool true) fresh Hne)
    as (H1 & _ & _ & H4 & _).
  split; [exact Hne |]. split; [apply H1 |]. split; [apply (H4 env0) |].
  reflexivity.
Defined.

(** ** Battle records *)

Lemma recordBattleResult_known env id result score st c :
  chars st !! id = Some c ->
  let st' := recordBattleResult env id result score st in
  Statistics.gamesPlayed (statistics_of st')
  = Statistics.gamesPlayed (statistics_of st) + 1
  /\ Statistics.gamesWon (statistics_of st')
     = Statistics.gamesWon (statistics_of st)
       + (if is_win result then 1 else 0)
  /\ Statistics.perfectGames (statistics_of st')
     = Statistics.perfectGames (statistics_of st)
       + (if String.eqb result "perfect_win" then 1 else 0)
  /\ Player.totalScore (State.player (state st'))
     = Player.totalScore (State.player (state st)) + score
  /\ chars st' !! id
     = Some (Character.mk (Character.name c) (Character.level c)
               (Character.hp c) (Character.maxHp c) (Character.intimacy c)
               (Character.battleCount c + 1)
               (Character.victories c + (if is_win result then 1 else 0))
               (Character.equipment c)
               (Some (or_else_undef (Character.totalScore c) 0 + score))).
Proof.
  intros Hc. unfold chars in Hc. cbn zeta.
  unfold recordBattleResult, statistics_of, chars. rewrite Hc. cbn.
  rewrite lookup_insert_eq, !or_else_zero.
  destruct (is_win result), (String.eqb result "perfect_win"); cbn;
    rewrite ?or_else_zero, ?Z.add_0_r; repeat split; by destruct c.
Qed.

Lemma recordBattleResult_unknown env id result score st :
  chars st !! id = None -> recordBattleResult env id result score st = st.
Proof. unfold chars, recordBattleResult. by intros ->. Qed.





(** ** The counters agree *)

Lemma consistent_ext st st' :
  chars st' = chars st -> statistics_of st' = statistics_of st ->
  consistent st -> consistent st'.
Proof. unfold consistent. by intros -> ->. Qed.

(** One character is rewritten with counters that agree, the statistics
    agree: the store is consistent again. *)
Lemma consistent_insert st st' id c' :
  consistent st ->
  chars st' = <[id := c']> (chars st) ->
  0 <= Character.victories c' <= Character.battleCount c' ->
  0 <= Statistics.perfectGames (statistics_of st')
    <= Statistics.gamesWon (statistics_of st') ->
  Statistics.gamesWon (statistics_of st')
    <= Statistics.gamesPlayed (statistics_of st') ->
  consistent st'.
Proof.
  intros (Hc & Hs) Hins Hc' Hs1 Hs2. split; [| done].
  intros id0 c0. rewrite Hins. destruct (decide (id = id0)) as [-> | Hne].
  - rewrite lookup_insert_eq. by intros [= <-].
  - rewrite lookup_insert_ne by done. apply Hc.
Qed.

Lemma constructor_consistent env : consistent (constructor env).
Proof.
  split; [| by vm_compute].
  assert (H : every (fun c => (0 <=? Character.victories c)
                              && (Character.victories c
                                  <=? Character.battleCount c))
                (chars (constructor env)) = true) by (by vm_compute).
  rewrite every_true in H. intros id c Hc. specialize (H id c Hc).
  rewrite andb_true_iff in H. lia.
Qed.

Lemma consistent_step env op st :
  keeps_counters op = true -> consistent st ->
  consistent (store_of (run env op st)).
Proof.
  intros Hk Hcons.
  assert (Hsame : writes op FCharacters = false ->
                  statistics_of (store_of (run env op st)) = statistics_of st ->
                  consistent (store_of (run env op st))).
  { intros Hw Hs. apply (consistent_ext st); [| done | done].
    apply chars_of_field. by apply mutation_footprint_lemma. }
  assert (Hplayer : writes op FPlayer = false ->
                    statistics_of (store_of (run env op st)) = statistics_of st).
  { intros Hw. pose proof (mutation_footprint_lemma env op st FPlayer Hw) as H.
    cbn in H. unfold statistics_of. by injection H as ->. }
  pose proof Hcons as (Hc & Hs1 & Hs2).
  destruct op; try discriminate Hk;
    try (apply Hsame; [done | by apply Hplayer]); clear Hsame; cbn [run store_of].
  - (* upgradeEquipment *)
    unfold upgradeEquipment.
    destruct (State.characters (state st) !! charId) as [c|] eqn:E; [| done].
    eapply (consistent_insert st); [done | reflexivity | | done | done].
    cbn. by apply (Hc charId).
  - (* updateScore *)
    split; [exact Hc |]. unfold statistics_of, updateScore in *. cbn. lia.
  - (* recordDefeat *)
    unfold recordDefeat.
    destruct (State.characters (state st) !! charId) as [c|] eqn:E; [| done].
    eapply (consistent_insert st); [done | reflexivity | | done | done].
    cbn. specialize (Hc charId c E). lia.
  - (* updateIntimacy *)
    unfold updateIntimacy.
    destruct (State.characters (state st) !! charId) as [c|] eqn:E; [| done].
    eapply (consistent_insert st); [done | reflexivity | | done | done].
    cbn. by apply (Hc charId).
  - (* updatePlayTime *)
    split; [exact Hc |]. unfold statistics_of, updatePlayTime in *. cbn. lia.
  - (* resetGame *)
    apply (consistent_ext (constructor env)); [done | done |].
    apply constructor_consistent.
  - (* increaseIntimacy *)
    unfold increaseIntimacy.
    destruct (State.characters (state st) !! characterId) as [c|] eqn:E;
      [| done].
    eapply (consistent_insert st); [done | reflexivity | | done | done].
    cbn. by apply (Hc characterId).
  - (* setCharacterLevel *)
    unfold setCharacterLevel.
    destruct (State.characters (state st) !! characterId) as [c|] eqn:E;
      [| done].
    eapply (consistent_insert st); [done | reflexivity | | done | done].
    cbn. by apply (Hc characterId).
  - (* upgradeCharacterEquipment *)
    unfold upgradeCharacterEquipment.
    destruct (State.characters (state st) !! characterId) as [c|] eqn:E;
      [| done].
    destruct (_ <? 5); [| done].
    eapply (consistent_insert st); [done | reflexivity | | done | done].
    cbn. by apply (Hc characterId).
  - (* recordBattleResult *)
    destruct (chars st !! characterId) as [c|] eqn:E;
      [| by rewrite recordBattleResult_unknown].
    destruct (recordBattleResult_known env characterId result score st c E)
      as (Hp & Hw & Hpf & _ & Hc').
    specialize (Hc characterId c E).
    assert (Hpw : String.eqb result "perfect_win" = true ->
                  is_win result = true).
    { intros H. apply String.eqb_eq in H. by subst. }
    eapply (consistent_insert st _ characterId); [done | | | |].
    + apply map_eq. intros id0.
      destruct (decide (characterId = id0)) as [<- | Hne].
      * rewrite Hc'. by rewrite lookup_insert_eq.
      * rewrite lookup_insert_ne by done.
        by apply (characters_frame_lemma env
                    (RecordBattleResult characterId result score) st eq_refl);
          cbn; congruence.
    + cbn. destruct (is_win result); lia.
    + rewrite Hw, Hpf.
      destruct (String.eqb result "perfect_win"), (is_win result);
        try lia; by specialize (Hpw eq_refl).
    + rewrite Hw, Hp. destruct (is_win result); lia.
Qed.

(** X6. The counters of a new store agree with each other: no character
    has more victories than battles, and [perfectGames <= gamesWon <=
    gamesPlayed]. Every method other than [updateCharacter] and
    [recordVictory] keeps them so, along any sequence of calls; the
    defeats that [getGameStats] and [getCharacterStats] report are then
    never negative. *)
Theorem counters_consistent env ops st :
  consistent st ->
  Forall (fun op => keeps_counters op = true) ops ->
  consistent (run_all env ops st)
  /\ 0 <= gs_defeats (getGameStats (run_all env ops st))
  /\ (forall id, 0 <= defeats (getCharacterStats id (run_all env ops st)))
  /\ forall env', consistent (constructor env').
Proof.
  intros Hcons Hall.
  assert (H : consistent (run_all env ops st)).
  { revert st Hcons. induction Hall as [|op ops Hk _ IH]; intros st Hcons;
      [done |].
    cbn. apply IH. by apply consistent_step. }
  split; [exact H |]. destruct H as (Hc & Hs1 & Hs2).
  split; [| split; [| apply constructor_consistent]].
  - unfold getGameStats. cbn. rewrite !or_else_zero.
    unfold statistics_of in Hs2. lia.
  - intros id. unfold getCharacterStats.
    destruct (State.characters (state (run_all env ops st)) !! id) as [c|] eqn:E;
      cbn; [| done].
    rewrite !or_else_zero. specialize (Hc id c E). lia.
Qed.

Lemma counters_consistent_witness :
  consistent (run_all env0 [RecordBattleResult 1 "perfect_win" 1000;
                            RecordDefeat 2; UpdateScore 50] fresh)
  /\ 0 <= gs_defeats
            (getGameStats
               (run_all env0 [RecordBattleResult 1 "perfect_win" 1000;
                              RecordDefeat 2; UpdateScore 50] fresh))
  /\ (forall id,
        0 <= defeats
               (getCharacterStats id
                  (run_all env0 [RecordBattleResult 1 "perfect_win" 1000;
                                 RecordDefeat 2; UpdateScore 50] fresh)))
  /\ forall env', consistent (constructor env').
Proof.
  apply (counters_consistent env0
           [RecordBattleResult 1 "perfect_win" 1000; RecordDefeat 2;
            UpdateScore 50] fresh).
  - apply constructor_consistent.
  - repeat constructor.
Defined.



(** ** Equipment levels, read and written *)

Lemma upgradeCharacterEquipment_known env id st c :
  chars st !! id = Some c ->
  let l := or_else (Equipment.level (Character.equipment c)) 1 in
  (upgradeCharacterEquipment env id st).1 = (l <? 5)
  /\ level_of (upgradeCharacterEquipment env id st).2 id
     = Some (if l <? 5 then l + 1
             else Equipment.level (Character.equipment c))
  /\ ((l <? 5) = false -> (upgradeCharacterEquipment env id st).2 = st).
Proof.
  intros Hc. unfold chars in Hc. cbn zeta.
  unfold upgradeCharacterEquipment, level_of, chars. rewrite Hc.
  destruct (_ <? 5); cbn.
  - by rewrite lookup_insert_eq.
  - by rewrite Hc.
Qed.

(** X8. For a known character whose equipment level [l] lies within
    [1, 5], [n] calls of [upgradeCharacterEquipment] leave the level at
    [min 5 (l + n)]: one step per call up to 5, where it stays. A call
    returns true exactly when the level was below 5, and at 5 it changes
    nothing at all. A stored level 0 is read as 1 and becomes 2. *)
Theorem upgrade_times_level env id st c :
  chars st !! id = Some c ->
  (1 <= Equipment.level (Character.equipment c) <= 5 ->
   forall n,
     level_of (upgrade_times env id n st) id
     = Some (Z.min 5 (Equipment.level (Character.equipment c) + Z.of_nat n)))
  /\ (1 <= Equipment.level (Character.equipment c) <= 5 ->
      ((upgradeCharacterEquipment env id st).1 = true
       <-> Equipment.level (Character.equipment c) < 5))
  /\ (Equipment.level (Character.equipment c) = 5 ->
      upgradeCharacterEquipment env id st = (false, st))
  /\ (Equipment.level (Character.equipment c) = 0 ->
      level_of (upgradeCharacterEquipment env id st).2 id = Some 2).
Proof.
  intros Hc.
  destruct (upgradeCharacterEquipment_known env id st c Hc) as (Hr & Hl & Hs).
  cbn zeta in *. split; [| split; [| split]].
  - intros Hrange n. revert Hrange. clear Hr Hl Hs. revert st c Hc.
    induction n as [|n IH]; intros st c Hc Hrange.
    + cbn. unfold level_of. rewrite Hc. cbn. f_equal. lia.
    + change (upgrade_times env id (S n) st)
        with ((upgradeCharacterEquipment env id (upgrade_times env id n st)).2).
      specialize (IH st c Hc Hrange).
      unfold level_of in IH.
      destruct (chars (upgrade_times env id n st) !! id) as [c1|] eqn:Hc1;
        [| done].
      injection IH as IH.
      destruct (upgradeCharacterEquipment_known env id _ c1 Hc1)
        as (_ & -> & _). f_equal. rewrite IH. unfold or_else.
      destruct (Z.eqb_spec (Z.min 5 (Equipment.level (Character.equipment c)
                                     + Z.of_nat n)) 0); [lia |].
      destruct (Z.ltb_spec (Z.min 5 (Equipment.level (Character.equipment c)
                                     + Z.of_nat n)) 5); lia.
  - intros Hrange. rewrite Hr, Z.ltb_lt. unfold or_else.
    destruct (Z.eqb_spec (Equipment.level (Character.equipment c)) 0); lia.
  - intros H5. rewrite H5 in *. cbn in *.
    destruct (upgradeCharacterEquipment env id st) as [b st'].
    cbn in *. rewrite Hr, (Hs eq_refl). done.
  - intros H0. rewrite Hl, H0. done.
Qed.

Lemma upgrade_times_level_witness :
  (1 <= 1 <= 5 ->
   forall n, level_of (upgrade_times env0 3 n fresh) 3
             = Some (Z.min 5 (1 + Z.of_nat n)))
  /\ (1 <= 1 <= 5 ->
      ((upgradeCharacterEquipment env0 3 fresh).1 = true <-> 1 < 5))
  /\ (1 = 5 -> upgradeCharacterEquipment env0 3 fresh = (false, fresh))
  /\ (1 = 0 ->
      level_of (upgradeCharacterEquipment env0 3 fresh).2 3 = Some 2).
Proof.
  apply (upgrade_times_level env0 3 fresh
           (Character.mk "紅月妖" 1 150 150 0 0 0
              (Equipment.mk 1 "生徒会服") None)).
  vm_compute. reflexivity.
Defined.

(** X9. [getCharacterLevel] reads back the level that [setCharacterLevel]
    or [upgradeEquipment] stored for a known character, except that a
    stored 0 reads as 1; for an unknown character it reads 1, and the two
    writers do nothing. *)
Theorem getCharacterLevel_reads env id st :
  (forall c level, chars st !! id = Some c ->
     getCharacterLevel id (setCharacterLevel env id level st)
     = if level =? 0 then 1 else level)
  /\ (forall c level name, chars st !! id = Some c ->
        getCharacterLevel id (upgradeEquipment env id level name st)
        = if level =? 0 then 1 else level)
  /\ (chars st !! id = None ->
      getCharacterLevel id st = 1
      /\ (forall level, setCharacterLevel env id level st = st)
      /\ forall level name, upgradeEquipment env id level name st = st).
Proof.
  unfold chars, getCharacterLevel, setCharacterLevel, upgradeEquipment.
  repeat split.
  - intros c level ->. cbn. by rewrite lookup_insert_eq.
  - intros c level name ->. cbn. by rewrite lookup_insert_eq.
  - by rewrite H.
  - by rewrite H.
  - by rewrite H.
Qed.

(** ** Reset *)

(** X10. [resetGame] keeps [settings] and [playerId] and nothing else:
    every other property is that of a new tree (the lists made by [unlock]
    and [unlockEnding] are gone), [hasUnsavedProgress] is true, and one
    [gameReset] event is emitted. The tree it leaves depends only on the
    settings and the player id, so resetting after any method that keeps
    both gives the same tree as resetting at once. *)
Theorem resetGame_forgets env st :
  (forall f,
     state_field f (state (resetGame env st))
     = match f with
       | FSettings | FPlayerId => state_field f (state st)
       | FHasUnsavedProgress => Some (OfBool true)
       | _ => state_field f (getInitialState env)
       end)
  /\ emitted (resetGame env st) = emitted st ++ [gameReset]
  /\ (forall st2,
        State.settings (state st2) = State.settings (state st) ->
        State.playerId (state st2) = State.playerId (state st) ->
        state (resetGame env st2) = state (resetGame env st))
  /\ (forall env' op,
        writes op FSettings = false ->
        state (resetGame env (store_of (run env' op st)))
        = state (resetGame env st)).
Proof.
  split; [by intros [] | split; [done | split]].
  - intros st2 Hs Hp. unfold resetGame. cbn. by rewrite Hs, Hp.
  - intros env' op Hw.
    assert (Hp : writes op FPlayerId = false) by (by destruct op).
    pose proof (mutation_footprint_lemma env' op st FSettings Hw) as Hs'.
    pose proof (mutation_footprint_lemma env' op st FPlayerId Hp) as Hp'.
    cbn in Hs', Hp'. injection Hs' as Hs'. injection Hp' as Hp'.
    unfold resetGame. cbn. by rewrite Hs', Hp'.
Qed.

(** ** Unlocked content and endings *)

Lemma add_once_facts items x :
  x ∈ add_once items x
  /\ items `prefix_of` add_once items x
  /\ (NoDup items -> NoDup (add_once items x))
  /\ add_once (add_once items x) x = add_once items x.
Proof.
  unfold add_once. destruct (includes items x) eqn:E.
  - rewrite E. apply includes_true in E. by repeat split.
  - apply includes_false in E.
    assert (Hin : includes (items ++ [x]) x = true)
      by (apply includes_true; set_solver).
    rewrite Hin. repeat split.
    + set_solver.
    + by apply prefix_app_r.
    + intros Hnd. apply NoDup_app. repeat split; [done | | apply NoDup_singleton].
      intros y Hy Hy'. apply list_elem_of_singleton in Hy'. by subst.
Qed.

Lemma unlock_list env content st :
  State.unlockedContent (state (unlock env content st))
  = Some (add_once (default [] (State.unlockedContent (state st))) content).
Proof.
  unfold unlock, add_once.
  destruct (State.unlockedContent (state st)) as [l|] eqn:E; cbn.
  - rewrite E. cbn. by destruct (includes l content); cbn.
  - by rewrite includes_nil.
Qed.

Lemma unlockEnding_list env e st :
  State.unlockedEndings (state (unlockEnding env e st))
  = Some (add_once (default [] (State.unlockedEndings (state st))) e).
Proof.
  unfold unlockEnding, add_once.
  destruct (State.unlockedEndings (state st)) as [l|] eqn:E; cbn.
  - rewrite E. cbn. by destruct (includes l e); cbn.
  - by rewrite includes_nil.
Qed.

Lemma unlock_member env content st items :
  State.unlockedContent (state st) = Some items -> content ∈ items ->
  unlock env content st = st.
Proof.
  intros Hl Hin. unfold unlock. rewrite Hl. cbn. rewrite Hl. cbn.
  apply includes_true in Hin. by rewrite Hin.
Qed.

Lemma unlockEnding_member env e st items :
  State.unlockedEndings (state st) = Some items -> e ∈ items ->
  unlockEnding env e st = st.
Proof.
  intros Hl Hin. unfold unlockEnding. rewrite Hl. cbn. rewrite Hl. cbn.
  apply includes_true in Hin. by rewrite Hin.
Qed.

(** X11. The class's [unlock(content)] keeps [unlockedContent] as a list
    without repetition: after a call the content is in the list, what was
    there is still there in the same order, a list without duplicates
    stays so, and a second call with the same content changes nothing. *)
Theorem unlock_once env content st :
  exists items,
    State.unlockedContent (state (unlock env content st)) = Some items
    /\ content ∈ items
    /\ default [] (State.unlockedContent (state st)) `prefix_of` items
    /\ (NoDup (default [] (State.unlockedContent (state st))) -> NoDup items)
    /\ unlock env content (unlock env content st) = unlock env content st.
Proof.
  destruct (add_once_facts (default [] (State.unlockedContent (state st)))
              content) as (Hin & Hp & Hnd & _).
  eexists. split; [apply unlock_list |]. repeat split; [done.. |].
  by eapply unlock_member; [apply unlock_list |].
Qed.

(** X12. [unlockEnding] keeps [unlockedEndings] as a list without
    repetition: after a call the ending is in the list, what was there is
    still there in the same order, a list without duplicates stays so,
    and a second call with the same ending changes nothing. *)
Theorem unlockEnding_once env endingType st :
  exists items,
    State.unlockedEndings (state (unlockEnding env endingType st)) = Some items
    /\ endingType ∈ items
    /\ default [] (State.unlockedEndings (state st)) `prefix_of` items
    /\ (NoDup (default [] (State.unlockedEndings (state st))) -> NoDup items)
    /\ unlockEnding env endingType (unlockEnding env endingType st)
       = unlockEnding env endingType st.
Proof.
  destruct (add_once_facts (default [] (State.unlockedEndings (state st)))
              endingType) as (Hin & Hp & Hnd & _).
  eexists. split; [apply unlockEnding_list |]. repeat split; [done.. |].
  by eapply unlockEnding_member; [apply unlockEnding_list |].
Qed.

(** ** Migration and loading, again *)

Lemma snapshot_ext a b :
  (forall f, snapshot_field f a = snapshot_field f b) -> a = b.
Proof.
  intros H. destruct a, b.
  pose proof (H FVersion) as H1. pose proof (H FPlayerId) as H2.
  pose proof (H FCreatedAt) as H3. pose proof (H FLastPlayedAt) as H4.
  pose proof (H FCurrentScene) as H5. pose proof (H FCurrentCharacter) as H6.
  pose proof (H FCurrentDialogue) as H7. pose proof (H FCompletedScenes) as H8.
  pose proof (H FCharacters) as H9. pose proof (H FPlayer) as H10.
  pose proof (H FSettings) as H11. pose proof (H FUnlocks) as H12.
  pose proof (H FCurrentGame) as H13. pose proof (H FFlags) as H14.
  pose proof (H FHasUnsavedProgress) as H15.
  pose proof (H FUnlockedContent) as H16.
  pose proof (H FUnlockedEndings) as H17.
  cbn in *. clear H.
  f_equal;
    match goal with
    | |- ?x = ?y => destruct x, y; cbn in *; congruence
    end.
Qed.

Lemma state_ext a b :
  (forall f, state_field f a = state_field f b) -> a = b.
Proof.
  intros H.
  assert (Snapshot.of_state a = Snapshot.of_state b) as Hs.
  { apply snapshot_ext. intros f. by rewrite !of_state_field. }
  destruct a, b. cbn in Hs. by injection Hs as -> -> -> -> -> -> -> -> -> ->
    -> -> -> -> -> -> ->.
Qed.

(** X13. The result of [migrateState] has every property of the template;
    migrating it again, at any later time, gives it back unchanged; and
    the saved form of a live tree is not changed by a migration. *)
Theorem migrateState_complete env o st :
  (forall f, template f = true ->
     is_Some (snapshot_field f (migrateState env o st).1))
  /\ (forall env' st',
        (migrateState env' (migrateState env o st).1 st').1
        = (migrateState env o st).1)
  /\ (forall st2, (migrateState env (getCurrentState st2) st).1
                  = getCurrentState st2).
Proof.
  split; [| split].
  - intros f Ht. cbn. rewrite of_state_field. by apply template_field.
  - intros env' st'. cbn. apply snapshot_ext. intros f.
    rewrite !of_state_field, overlay_field, of_state_field.
    destruct (state_field f (Snapshot.overlay (getInitialState env) o))
      eqn:E; [done |].
    cbn. rewrite overlay_field in E.
    destruct (snapshot_field f o); [done |]. cbn in E.
    by destruct f.
  - intros st2. cbn. apply snapshot_ext. intros f.
    rewrite of_state_field, overlay_field. unfold getCurrentState.
    rewrite of_state_field.
    destruct (state_field f (state st2)) eqn:E; [done |].
    cbn. by destruct f.
Qed.

(** X14. Loading the same saved object a second time, at a later time.
    The second load returns normally, sets [lastPlayedAt] to its own time,
    and leaves every other property but [playerId] and [createdAt] as the
    first load left it. When the object has a version, that version is the
    version of the live tree after the first load, the second load does
    not migrate, and the whole tree but [lastPlayedAt] is as it was. When
    the object has no version, each load migrates: an object without
    [playerId] or [createdAt] then gets a new player id and a new creation
    time with every load. *)
Theorem loadState_again env env' saved st st1 :
  loadState env saved st = Normal tt st1 ->
  exists st2,
    loadState env' saved st1 = Normal tt st2
    /\ State.lastPlayedAt (state st2) = now env'
    /\ (forall f, f <> FLastPlayedAt -> f <> FPlayerId -> f <> FCreatedAt ->
          state_field f (state st2) = state_field f (state st1))
    /\ (forall o v, properties saved = Some o -> Snapshot.version o = Some v ->
          State.version (state st1) = v
          /\ state st2 = State.set_lastPlayedAt (now env') (state st1))
    /\ (forall o, properties saved = Some o -> Snapshot.version o = None ->
          (Snapshot.playerId o = None ->
           State.playerId (state st2) = generatePlayerId env')
          /\ (Snapshot.createdAt o = None ->
              State.createdAt (state st2) = now env')).
Proof.
  intros Hl.
  pose proof (loadState_outcome env saved st) as H1.
  pose proof (loadState_outcome env' saved st1) as H2.
  destruct (properties saved) as [o|] eqn:Hp.
  2: { destruct H1 as (st' & H1 & _). rewrite H1 in Hl. discriminate. }
  destruct H1 as (st1' & Hl1 & Hd1 & Ht1 & _ & Hf1).
  rewrite Hl1 in Hl. injection Hl as ->.
  destruct H2 as (st2 & Hl2 & Hd2 & Ht2 & _ & Hf2).
  assert (Hver : forall v, Snapshot.version o = Some v ->
                           State.version (state st1) = v).
  { intros v Hv. specialize (Hf1 FVersion eq_refl). cbn in Hf1.
    rewrite Hv in Hf1. cbn in Hf1. by injection Hf1. }
  assert (Hkept : forall f, stamp f = false ->
            (is_Some (Snapshot.version o) \/ (f <> FPlayerId /\ f <> FCreatedAt)) ->
            state_field f (state st2) = state_field f (state st1)).
  { intros f Hs Hcase. rewrite (Hf2 f Hs), (Hf1 f Hs).
    destruct (snapshot_field f o) as [x|] eqn:Ho; [done |]. cbn.
    case_bool_decide as Hb2; [| done].
    destruct Hcase as [[v Hv] | [Hn1 Hn2]].
    { exfalso. apply Hb2. rewrite Hv. f_equal. symmetry. by apply Hver. }
    assert (Hinit : state_field f (getInitialState env')
                    = state_field f (getInitialState env))
      by (by destruct f).
    rewrite Hinit.
    case_bool_decide as Hb1.
    - by destruct (state_field f (getInitialState env)).
    - exfalso. apply Hb2. rewrite Hb1. f_equal. symmetry. by apply Hver. }
  exists st2. split; [done |]. split; [done |].
  split; [| split].
  - intros f Hf Hp' Hc. destruct (stamp f) eqn:Hs.
    + destruct f; try discriminate Hs; try done. cbn. congruence.
    + apply Hkept; [done |]. by right.
  - intros o' v [= <-] Hv. split; [by apply Hver |].
    apply state_ext. intros f. destruct (stamp f) eqn:Hs.
    + destruct f; try discriminate Hs; cbn; congruence.
    + rewrite Hkept; [by destruct f | done | left; by eexists].
  - intros o' [= <-] Hv.
    assert (Hmig : Snapshot.version o <> Some (State.version (state st1)))
      by (by rewrite Hv).
    split.
    + intros Hn. specialize (Hf2 FPlayerId eq_refl).
      rewrite bool_decide_eq_true_2 in Hf2 by done. cbn in Hf2.
      rewrite Hn in Hf2. cbn in Hf2. by injection Hf2.
    + intros Hn. specialize (Hf2 FCreatedAt eq_refl).
      rewrite bool_decide_eq_true_2 in Hf2 by done. cbn in Hf2.
      rewrite Hn in Hf2. cbn in Hf2. by injection Hf2.
Qed.

Lemma loadState_again_witness :
  loadState env0 (SavedNum 42) fresh
  = Normal tt (store_of (loadState env0 (SavedNum 42) fresh))
  /\ exists st2,
       loadState env1 (SavedNum 42) (store_of (loadState env0 (SavedNum 42) fresh))
       = Normal tt st2
       /\ State.lastPlayedAt (state st2) = now env1
       /\ State.playerId (state st2) = generatePlayerId env1
       /\ State.playerId (state (store_of (loadState env0 (SavedNum 42) fresh)))
          = generatePlayerId env0.
Proof.
  assert (H : loadState env0 (SavedNum 42) fresh
              = Normal tt (store_of (loadState env0 (SavedNum 42) fresh)))
    by reflexivity.
  split; [exact H |].
  destruct (loadState_again env0 env1 (SavedNum 42) fresh _ H)
    as (st2 & Hl & Ht & _ & _ & Hn).
  exists st2. split; [exact Hl |]. split; [exact Ht |].
  split; [| reflexivity].
  by apply (Hn Snapshot.empty).
Defined.

(** ** Defeated characters and listed achievements *)

Lemma getDefeatedCharacters_elem st id :
  id ∈ getDefeatedCharacters st
  <-> exists c, chars st !! id = Some c /\ 0 < Character.victories c.
Proof.
  unfold getDefeatedCharacters, chars. rewrite list_elem_of_fmap. split.
  - intros [[k c] [-> Hin]]. apply list_elem_of_filter in Hin as [Hv Hin].
    apply elem_of_map_to_list in Hin. by exists c.
  - intros [c [Hc Hv]]. exists (id, c). split; [done |].
    apply list_elem_of_filter. split; [done |]. by apply elem_of_map_to_list.
Qed.

(** X15. [getDefeatedCharacters] lists, each once, exactly the ids of the
    characters with at least one victory recorded; a character enters the
    list with the first win that [recordBattleResult] records for it, and
    the class's [checkEndingConditions] answers true exactly when the
    list has three entries or more. *)
Theorem getDefeatedCharacters_exact env st :
  (forall id, id ∈ getDefeatedCharacters st
              <-> exists c, chars st !! id = Some c
                            /\ 0 < Character.victories c)
  /\ NoDup (getDefeatedCharacters st)
  /\ (forall id c result score,
        chars st !! id = Some c -> 0 <= Character.victories c ->
        is_win result = true ->
        id ∈ getDefeatedCharacters (recordBattleResult env id result score st))
  /\ (checkEndingConditions st = RetBool true
      <-> (3 <= length (getDefeatedCharacters st))%nat).
Proof.
  split; [apply getDefeatedCharacters_elem | split; [| split]].
  - unfold getDefeatedCharacters.
    assert (Hsub : (filter (fun kc : Z * Character.t =>
                              0 < Character.victories kc.2)
                      (map_to_list (State.characters (state st)))).*1
                   `sublist_of` (map_to_list (State.characters (state st))).*1)
      by apply fmap_sublist, sublist_filter.
    exact (sublist_NoDup _ _
             (NoDup_fst_map_to_list (State.characters (state st))) Hsub).
  - intros id c result score Hc Hv Hw. apply getDefeatedCharacters_elem.
    destruct (recordBattleResult_known env id result score st c Hc)
      as (_ & _ & _ & _ & Hc').
    eexists. split; [exact Hc' |]. cbn. rewrite Hw. lia.
  - unfold checkEndingConditions. split.
    + intros [= H]. apply Z.leb_le in H. lia.
    + intros H. f_equal. apply Z.leb_le. lia.
Qed.

(** X16. No method writes [player.achievements]: after any call
    [getUnlockedAchievements] returns what it returned before, or the
    empty list after [resetGame]. On a store that was never loaded from a
    save it is always empty, whatever [checkAchievements] has reported. *)
Theorem getUnlockedAchievements_fixed env op st :
  getUnlockedAchievements (store_of (run env op st))
  = (if is_reset op then [] else getUnlockedAchievements st)
  /\ forall env' ops,
       getUnlockedAchievements (run_all env ops (constructor env')) = [].
Proof.
  assert (Hstep : forall op st,
            getUnlockedAchievements (store_of (run env op st))
            = if is_reset op then [] else getUnlockedAchievements st).
  { clear op st. intros op st.
    assert (Hsame : writes op FPlayer = false -> is_reset op = false ->
              getUnlockedAchievements (store_of (run env op st))
              = if is_reset op then [] else getUnlockedAchievements st).
    { intros Hw ->.
      pose proof (mutation_footprint_lemma env op st FPlayer Hw) as H.
      cbn in H. unfold getUnlockedAchievements. by injection H as ->. }
    destruct op; try (by apply Hsame); clear Hsame; cbn [run store_of is_reset];
      try done.
    - (* recordVictory *)
      unfold recordVictory.
      match goal with
      | |- context [bind (checkAchievements env ?s) _] => set (st1 := s)
      end.
      assert (H1 : getUnlockedAchievements st1 = getUnlockedAchievements st).
      { subst st1. unfold getUnlockedAchievements.
        by destruct (State.characters (state st) !! charId). }
      rewrite <- H1. clearbody st1.
      unfold checkAchievements. rewrite checkAchievements_via_unfold.
      destruct (newly_earned (state st1)) as [ids|]; cbn; [| done].
      destruct (foldl_call_unlock_keeps env ids st1) as (_ & _ & Hp & _).
      cbn zeta in Hp. unfold getUnlockedAchievements. cbn. by rewrite Hp.
    - (* recordBattleResult *)
      unfold recordBattleResult, getUnlockedAchievements.
      by destruct (State.characters (state st) !! characterId). }
  split; [apply Hstep |].
  intros env' ops. generalize (eq_refl : getUnlockedAchievements
                                           (constructor env') = []).
  generalize (constructor env'). induction ops as [|o ops IH]; intros s Hs;
    [done |].
  cbn. apply IH. rewrite Hstep. destruct (is_reset o); [done | exact Hs].
Qed.

(** ** The listeners *)

Lemma foldl_call fails e callbacks bus :
  Bus.listeners (foldl (Bus.call fails e) bus callbacks) = Bus.listeners bus
  /\ Bus.calls (foldl (Bus.call fails e) bus callbacks)
     = Bus.calls bus ++ ((fun c => (c, e)) <$> callbacks)
  /\ Bus.errors (foldl (Bus.call fails e) bus callbacks)
     = Bus.errors bus
       ++ ((fun c => (event_name e, c))
             <$> filter (fun c => fails c e = true) callbacks).
Proof.
  revert bus. induction callbacks as [|c cs IH]; intros bus.
  - cbn. by rewrite !app_nil_r.
  - cbn [foldl]. destruct (IH (Bus.call fails e bus c)) as (-> & -> & ->).
    rewrite filter_cons, fmap_cons. unfold Bus.call, push.
    destruct (fails c e) eqn:E; cbn [Bus.listeners Bus.calls Bus.errors].
    + rewrite decide_True by done. rewrite fmap_cons.
      by rewrite <- !app_assoc.
    + rewrite decide_False by done. by rewrite <- !app_assoc.
Qed.

(** X17. [emit] calls every callback registered for the name of the
    event, once per registration and in the order of registration, and
    no other; a callback that throws does not keep the later ones from
    being called: its error is written to the console and the emission
    goes on. The registrations are left as they were. *)
Theorem emit_calls_all fails e bus :
  Bus.listeners (Bus.emit fails e bus) = Bus.listeners bus
  /\ Bus.calls (Bus.emit fails e bus)
     = Bus.calls bus
       ++ ((fun c => (c, e)) <$> Bus.handlers (event_name e) bus)
  /\ Bus.errors (Bus.emit fails e bus)
     = Bus.errors bus
       ++ ((fun c => (event_name e, c))
             <$> filter (fun c => fails c e = true)
                   (Bus.handlers (event_name e) bus)).
Proof.
  unfold Bus.emit, Bus.handlers.
  destruct (Bus.listeners bus !! event_name e) as [callbacks|]; cbn.
  - apply foldl_call.
  - by rewrite !app_nil_r.
Qed.

Lemma remove_first_absent callback callbacks :
  callback ∉ callbacks -> Bus.remove_first callback callbacks = callbacks.
Proof.
  induction callbacks as [|c cs IH]; intros Hn; cbn; [done |].
  apply not_elem_of_cons in Hn as [Hne Hn].
  rewrite decide_False by done. by rewrite IH.
Qed.

Lemma remove_first_present callback callbacks :
  callback ∈ callbacks ->
  exists before after,
    callbacks = before ++ callback :: after
    /\ (callback ∉ before)
    /\ Bus.remove_first callback callbacks = before ++ after.
Proof.
  induction callbacks as [|c cs IH]; intros Hin; [by apply elem_of_nil in Hin |].
  cbn. destruct (decide (c = callback)) as [-> | Hne].
  - exists [], cs. repeat split. apply not_elem_of_nil.
  - apply elem_of_cons in Hin as [-> | Hin]; [done |].
    destruct (IH Hin) as (before & after & -> & Hn & ->).
    exists (c :: before), after. repeat split.
    apply not_elem_of_cons. split; [congruence | done].
Qed.

Lemma remove_first_app_new callback callbacks :
  callback ∉ callbacks ->
  Bus.remove_first callback (callbacks ++ [callback]) = callbacks.
Proof.
  induction callbacks as [|c cs IH]; intros Hn; cbn.
  - by rewrite decide_True.
  - apply not_elem_of_cons in Hn as [Hne Hn].
    rewrite decide_False by done. by rewrite IH.
Qed.

(** X18. [on] adds the callback at the end of the list of its event, also
    when it is there already. [off] takes away the first registration of
    the callback and leaves the others in their order; it does nothing
    when the callback or the event is not registered. The lists of the
    other events are untouched by both, and [off] after [on] gives the
    list back when the callback was not registered before. *)
Theorem on_off_registrations event callback bus :
  Bus.handlers event (Bus.on event callback bus)
  = Bus.handlers event bus ++ [callback]
  /\ (callback ∉ Bus.handlers event bus ->
      Bus.handlers event (Bus.off event callback bus)
      = Bus.handlers event bus)
  /\ (callback ∈ Bus.handlers event bus ->
      exists before after,
        Bus.handlers event bus = before ++ callback :: after
        /\ (callback ∉ before)
        /\ Bus.handlers event (Bus.off event callback bus) = before ++ after)
  /\ (forall other, other <> event ->
        Bus.handlers other (Bus.on event callback bus)
        = Bus.handlers other bus
        /\ Bus.handlers other (Bus.off event callback bus)
           = Bus.handlers other bus)
  /\ (callback ∉ Bus.handlers event bus ->
      Bus.handlers event (Bus.off event callback (Bus.on event callback bus))
      = Bus.handlers event bus).
Proof.
  unfold Bus.handlers, Bus.on, Bus.off. cbn.
  split; [by rewrite lookup_insert_eq |].
  split; [| split; [| split]].
  - intros Hn. destruct (Bus.listeners bus !! event) as [l|] eqn:E; cbn in *.
    + rewrite lookup_insert_eq. cbn. by apply remove_first_absent.
    + by rewrite E.
  - intros Hin. destruct (Bus.listeners bus !! event) as [l|] eqn:E; cbn in *.
    + destruct (remove_first_present callback l Hin)
        as (before & after & Hl & Hn & Hr).
      exists before, after. rewrite lookup_insert_eq. cbn. by rewrite Hr.
    + by apply elem_of_nil in Hin.
  - intros other Hne. rewrite lookup_insert_ne by done. split; [done |].
    destruct (Bus.listeners bus !! event); cbn; [| done].
    by rewrite lookup_insert_ne.
  - intros Hn. rewrite lookup_insert_eq. cbn. rewrite lookup_insert_eq. cbn.
    by apply remove_first_app_new.
Qed.

(** ** Saving and loading by the application *)

(** X19. [loadSaveData] never throws. Without a save, or with an empty
    one, it does nothing. A save that is not JSON, or that is [null], is
    removed from the storage with a warning, and the tree and the events
    of the store are what they were. Every other save is handed to
    [loadState], which accepts it, and stays in the storage. *)
Theorem loadSaveData_outcome env app :
  match App.localStorage app with
  | None | Some EmptyText => App.loadSaveData env app = app
  | Some NotJson | Some (Json JsonNull) =>
      state (App.gameState (App.loadSaveData env app))
      = state (App.gameState app)
      /\ emitted (App.gameState (App.loadSaveData env app))
         = emitted (App.gameState app)
      /\ App.localStorage (App.loadSaveData env app) = None
      /\ exists error,
           App.log (App.loadSaveData env app)
           = App.log app ++ [(LevelWarn, MsgSaveLoadFailed error)]
  | Some (Json v) =>
      loadState env (to_saved v) (App.gameState app)
      = Normal tt (App.gameState (App.loadSaveData env app))
      /\ App.localStorage (App.loadSaveData env app) = App.localStorage app
      /\ App.log (App.loadSaveData env app)
         = App.log app ++ [(LevelLog, MsgSaveLoaded)]
  end.
Proof.
  unfold App.loadSaveData.
  destruct (App.localStorage app) as [[| |v]|] eqn:E; [done | | | done].
  - repeat split. by eexists.
  - assert (Hacc : forall o, properties (to_saved v) = Some o ->
              loadState env (to_saved v) (App.gameState app)
              = Normal tt
                  (App.gameState
                     match loadState env (to_saved v) (App.gameState app) with
                     | Normal _ st =>
                         App.mk st (App.csvManager app) (Some (Json v))
                           (push (App.log app) (LevelLog, MsgSaveLoaded))
                     | Throw e st =>
                         App.mk st (App.csvManager app) None
                           (push (App.log app)
                              (LevelWarn, MsgSaveLoadFailed (Thrown e)))
                     end)
              /\ App.localStorage
                   match loadState env (to_saved v) (App.gameState app) with
                   | Normal _ st =>
                       App.mk st (App.csvManager app) (Some (Json v))
                         (push (App.log app) (LevelLog, MsgSaveLoaded))
                   | Throw e st =>
                       App.mk st (App.csvManager app) None
                         (push (App.log app)
                            (LevelWarn, MsgSaveLoadFailed (Thrown e)))
                   end = Some (Json v)
              /\ App.log
                   match loadState env (to_saved v) (App.gameState app) with
                   | Normal _ st =>
                       App.mk st (App.csvManager app) (Some (Json v))
                         (push (App.log app) (LevelLog, MsgSaveLoaded))
                   | Throw e st =>
                       App.mk st (App.csvManager app) None
                         (push (App.log app)
                            (LevelWarn, MsgSaveLoadFailed (Thrown e)))
                   end = App.log app ++ [(LevelLog, MsgSaveLoaded)]).
    { intros o Hp.
      destruct (loadState_accepts env (to_saved v) o (App.gameState app) Hp)
        as (st' & -> & _). cbn. by destruct st'. }
    destruct v; try (by eapply Hacc).
    cbn. repeat split. by eexists.
Qed.


(** ** The tables of the game *)

Lemma find_head_filter {A : Type} (p : A -> bool) (l : list A) :
  List.find p l = head (List.filter p l).
Proof. induction l as [|x l IH]; [done |]. cbn. by destruct (p x). Qed.

Lemma find_split {A : Type} (p : A -> bool) (l : list A) (r : A) :
  List.find p l = Some r ->
  exists before after,
    l = before ++ r :: after /\ p r = true
    /\ Forall (fun x => p x = false) before.
Proof.
  induction l as [|x l IH]; [done |]. cbn. destruct (p x) eqn:E.
  - intros [= ->]. by exists [], l.
  - intros H. destruct (IH H) as (b & a & -> & Hr & Hb).
    exists (x :: b), a. repeat split; [done |]. by constructor.
Qed.

(** X21. [findOne] returns the first row of the table the predicate
    accepts, in the order of the table: it is the head of what [findData]
    returns, every row before it is rejected, and it returns [null] exactly
    when [findData] returns no row. For a table that is not loaded,
    [findData] returns the empty array and [findOne] returns [null]. *)
Theorem findOne_first dataKey predicate m :
  CSVManager.findOne dataKey predicate m
  = head (CSVManager.findData dataKey predicate m)
  /\ (forall row,
        CSVManager.findOne dataKey predicate m = Some row ->
        exists before after,
          CSVManager.getData dataKey m = Some (before ++ row :: after)
          /\ predicate row = true
          /\ Forall (fun r => predicate r = false) before)
  /\ (CSVManager.findOne dataKey predicate m = None
      <-> CSVManager.findData dataKey predicate m = [])
  /\ (CSVManager.getData dataKey m = None ->
      CSVManager.findData dataKey predicate m = []
      /\ CSVManager.findOne dataKey predicate m = None).
Proof.
  unfold CSVManager.findOne, CSVManager.findData.
  destruct (CSVManager.getData dataKey m) as [rows|]; [| by repeat split].
  split; [apply find_head_filter |]. split; [| split; [| done]].
  - intros row H. destruct (find_split _ _ _ H) as (b & a & -> & ? & ?).
    by exists b, a.
  - rewrite find_head_filter. by destruct (List.filter predicate rows).
Qed.

(** X22. A row found by its id has, in the id column, a value that is
    neither missing nor [null] and whose number is the id asked for; the
    id [NaN] finds nothing, whatever the table holds. *)
Theorem getById_matches StringToNumber dataKey id idField m :
  (forall row,
     CSVManager.getById StringToNumber dataKey id idField m = Some row ->
     exists cell n,
       row !! idField = Some cell /\ cell <> CellNull
       /\ CSVManager.ToNumber StringToNumber (Some cell) = Int n
       /\ id = Int n)
  /\ CSVManager.getById StringToNumber dataKey NaN idField m = None
  /\ CSVManager.getCharacter StringToNumber NaN m = None
  /\ CSVManager.getScene StringToNumber NaN m = None.
Proof.
  assert (Hnan : forall k f,
            CSVManager.getById StringToNumber k NaN f m = None).
  { intros k f. unfold CSVManager.getById, CSVManager.findOne.
    destruct (CSVManager.getData k m) as [rows|]; [| done].
    induction rows as [|r rows IH]; [done |]. cbn.
    replace (CSVManager.loose_eq StringToNumber (r !! f) NaN) with false;
      [done |].
    unfold CSVManager.loose_eq.
    destruct (r !! f) as [[]|]; try done;
      by destruct (CSVManager.ToNumber _ _). }
  split; [| repeat split; apply Hnan].
  intros row H. unfold CSVManager.getById, CSVManager.findOne in H.
  destruct (CSVManager.getData dataKey m) as [rows|]; [| done].
  destruct (find_split _ _ _ H) as (_ & _ & _ & Hr & _).
  unfold CSVManager.loose_eq in Hr.
  destruct (row !! idField) as [cell|]; [| done].
  destruct (CSVManager.ToNumber StringToNumber (Some cell)) as [|a] eqn:E;
    [by destruct cell |].
  destruct id as [|b]; [by destruct cell |].
  exists cell, a. destruct cell; try done;
    by case_bool_decide; [subst | done].
Qed.

Lemma insert_perm cmp x l : CSVManager.insert cmp x l ≡ₚ x :: l.
Proof.
  induction l as [|y l IH]; [done |]. cbn.
  destruct (CSVManager.positive (cmp x y)); [| done].
  rewrite IH. apply Permutation_swap.
Qed.

Lemma sort_perm cmp l : CSVManager.sort cmp l ≡ₚ l.
Proof.
  induction l as [|x l IH]; [done |]. cbn. fold (CSVManager.sort cmp l).
  by rewrite insert_perm, IH.
Qed.

Lemma positive_by_dialogue_id S x y :
  numbered S x -> numbered S y ->
  CSVManager.positive (CSVManager.by_dialogue_id S x y)
  = (dialogue_id S y <? dialogue_id S x).
Proof.
  unfold numbered, dialogue_id, CSVManager.by_dialogue_id, CSVManager.minus.
  destruct (CSVManager.ToNumber S (x !! "dialogue_id")); [done |].
  destruct (CSVManager.ToNumber S (y !! "dialogue_id")); [done |].
  intros _ _. cbn. apply eq_iff_eq_true. rewrite !Z.ltb_lt. lia.
Qed.

Lemma insert_ascending S x l :
  numbered S x -> Forall (numbered S) l ->
  ascending (dialogue_id S) l ->
  ascending (dialogue_id S) (CSVManager.insert (CSVManager.by_dialogue_id S) x l).
Proof.
  intros Hx. induction l as [|y l IH]; intros Hl Ha; [by cbn |].
  apply Forall_cons in Hl as [Hy Hl]. destruct Ha as [Hya Ha]. cbn.
  rewrite positive_by_dialogue_id by done.
  destruct (dialogue_id S y <? dialogue_id S x) eqn:E.
  - apply Z.ltb_lt in E. split; [| by apply IH].
    rewrite insert_perm. constructor; [lia | done].
  - apply Z.ltb_ge in E. split; [| by split].
    constructor; [done |]. eapply Forall_impl; [exact Hya |].
    cbn. intros. lia.
Qed.

Lemma sort_ascending S l :
  Forall (numbered S) l ->
  ascending (dialogue_id S) (CSVManager.sort (CSVManager.by_dialogue_id S) l).
Proof.
  induction l as [|x l IH]; intros Hl; [done |].
  apply Forall_cons in Hl as [Hx Hl]. cbn.
  fold (CSVManager.sort (CSVManager.by_dialogue_id S) l).
  apply insert_ascending; [done | by rewrite sort_perm | by apply IH].
Qed.

Lemma ascending_lookup key l i j a b :
  ascending key l -> (i < j)%nat ->
  l !! i = Some a -> l !! j = Some b -> key a <= key b.
Proof.
  revert i j. induction l as [|x l IH]; intros i j Hxa Hij Hi Hj; [done |].
  destruct Hxa as [Hx Ha].
  destruct j as [|j]; [lia |]. destruct i as [|i].
  - injection Hi as ->. cbn in Hj.
    by apply (proj1 (Forall_lookup _ _) Hx j b).
  - cbn in Hi, Hj. apply (IH i j); [done | lia | done | done].
Qed.

Lemma insert_filter S p x l :
  numbered S x -> Forall (numbered S) l -> ascending (dialogue_id S) l ->
  List.filter p (CSVManager.insert (CSVManager.by_dialogue_id S) x l)
  = if p x
    then CSVManager.insert (CSVManager.by_dialogue_id S) x (List.filter p l)
    else List.filter p l.
Proof.
  intros Hx. induction l as [|y l IH]; intros Hl Ha.
  { cbn. by destruct (p x). }
  apply Forall_cons in Hl as [Hy Hl]. destruct Ha as [Hya Ha].
  cbn [CSVManager.insert]. rewrite positive_by_dialogue_id by done.
  destruct (dialogue_id S y <? dialogue_id S x) eqn:E.
  - cbn [List.filter]. rewrite IH by done.
    destruct (p y) eqn:Ey; [| done]. destruct (p x); [| done].
    cbn [CSVManager.insert]. by rewrite positive_by_dialogue_id, E.
  - cbn [List.filter]. destruct (p x) eqn:Ex; [| done].
    destruct (p y) eqn:Ey.
    { cbn [CSVManager.insert]. by rewrite positive_by_dialogue_id, E. }
    apply Z.ltb_ge in E.
    assert (Hf : Forall (fun z => numbered S z
                                  /\ dialogue_id S x <= dialogue_id S z)
                   (List.filter p l)).
    { apply Forall_forall. intros z Hz.
      apply list_elem_of_In, filter_In in Hz as [Hz _].
      apply list_elem_of_In in Hz. split.
      - by apply (proj1 (Forall_forall _ _) Hl).
      - pose proof (proj1 (Forall_forall _ _) Hya z Hz). cbn in *. lia. }
    destruct (List.filter p l) as [|z l'] eqn:El; [done |].
    apply Forall_cons in Hf as [[Hz Hle] _].
    cbn [CSVManager.insert]. rewrite positive_by_dialogue_id by done.
    apply Z.ltb_ge in Hle. by rewrite Hle.
Qed.

Lemma sort_filter S p l :
  Forall (numbered S) l ->
  CSVManager.sort (CSVManager.by_dialogue_id S) (List.filter p l)
  = List.filter p (CSVManager.sort (CSVManager.by_dialogue_id S) l).
Proof.
  induction l as [|x l IH]; intros Hl; [done |].
  apply Forall_cons in Hl as [Hx Hl].
  cbn [CSVManager.sort foldr List.filter].
  fold (CSVManager.sort (CSVManager.by_dialogue_id S) l).
  rewrite insert_filter;
    [| done | by rewrite sort_perm | by apply sort_ascending].
  rewrite <- IH by done. by destruct (p x).
Qed.

Lemma insert_same_key S n x l :
  numbered S x -> Forall (numbered S) l ->
  List.filter (fun r => dialogue_id S r =? n)
    (CSVManager.insert (CSVManager.by_dialogue_id S) x l)
  = List.filter (fun r => dialogue_id S r =? n) (x :: l).
Proof.
  intros Hx Hl. induction Hl as [|y l Hy Hl IH]; [done |].
  cbn [CSVManager.insert]. rewrite positive_by_dialogue_id by done.
  destruct (dialogue_id S y <? dialogue_id S x) eqn:E; [| done].
  apply Z.ltb_lt in E. cbn [List.filter] in *. rewrite IH.
  destruct (dialogue_id S y =? n) eqn:Ey; [| done].
  destruct (dialogue_id S x =? n) eqn:Ex; [| done].
  apply Z.eqb_eq in Ey, Ex. lia.
Qed.

Lemma sort_same_key S n l :
  Forall (numbered S) l ->
  List.filter (fun r => dialogue_id S r =? n)
    (CSVManager.sort (CSVManager.by_dialogue_id S) l)
  = List.filter (fun r => dialogue_id S r =? n) l.
Proof.
  induction l as [|x l IH]; intros Hl; [done |].
  apply Forall_cons in Hl as [Hx Hl].
  cbn [CSVManager.sort foldr].
  fold (CSVManager.sort (CSVManager.by_dialogue_id S) l).
  rewrite insert_same_key; [| done | by rewrite sort_perm].
  cbn [List.filter]. by rewrite IH.
Qed.

(** X23. When the [dialogue_id] of every row of a scene is a number,
    [getDialoguesByScene] returns exactly the rows of the scene (each as
    often as the table has it), in ascending order of [dialogue_id], and
    rows with the same [dialogue_id] in the order of the table. *)
Theorem getDialoguesByScene_sorted S sceneId m :
  Forall (numbered S) (CSVManager.findData "dialogues" (of_scene S sceneId) m) ->
  CSVManager.getDialoguesByScene S sceneId m
  ≡ₚ CSVManager.findData "dialogues" (of_scene S sceneId) m
  /\ (forall i j a b,
        (i < j)%nat ->
        CSVManager.getDialoguesByScene S sceneId m !! i = Some a ->
        CSVManager.getDialoguesByScene S sceneId m !! j = Some b ->
        dialogue_id S a <= dialogue_id S b)
  /\ forall n,
       List.filter (fun r => dialogue_id S r =? n)
         (CSVManager.getDialoguesByScene S sceneId m)
       = List.filter (fun r => dialogue_id S r =? n)
           (CSVManager.findData "dialogues" (of_scene S sceneId) m).
Proof.
  intros Hn. unfold CSVManager.getDialoguesByScene.
  fold (of_scene S sceneId).
  split; [apply sort_perm |]. split.
  - intros i j a b. apply ascending_lookup. by apply sort_ascending.
  - intros n. by apply sort_same_key.
Qed.

Lemma filter_ext_bool {A : Type} (p q : A -> bool) (l : list A) :
  (forall x, p x = q x) -> List.filter p l = List.filter q l.
Proof.
  intros H. induction l as [|x l IH]; [done |]. cbn. by rewrite H, IH.
Qed.

Lemma filter_filter_bool {A : Type} (p q : A -> bool) (l : list A) :
  List.filter (fun x => p x && q x) l = List.filter q (List.filter p l).
Proof.
  induction l as [|x l IH]; [done |]. cbn.
  destruct (p x); cbn; [| done]. by destruct (q x); rewrite IH.
Qed.

(** X24. [getDialogues] without a character (or with [null]) is
    [getDialoguesByScene]. With a character, and when the [dialogue_id] of
    every row of the scene is a number, it returns the rows of that
    character among those [getDialoguesByScene] returns, in the same
    order. *)
Theorem getDialogues_of_scene S sceneId charId m :
  Forall (numbered S) (CSVManager.findData "dialogues" (of_scene S sceneId) m) ->
  CSVManager.getDialogues S sceneId None m
  = CSVManager.getDialoguesByScene S sceneId m
  /\ CSVManager.getDialogues S sceneId (Some charId) m
     = List.filter (of_char S charId)
         (CSVManager.getDialoguesByScene S sceneId m).
Proof.
  intros Hn. unfold CSVManager.getDialogues, CSVManager.getDialoguesByScene.
  fold (of_scene S sceneId) (of_char S charId).
  unfold CSVManager.findData in *.
  destruct (CSVManager.getData "dialogues" m) as [rows|]; [| done].
  split.
  - f_equal. apply filter_ext_bool. intros x. cbn. by rewrite andb_true_r.
  - rewrite <- sort_filter by done. f_equal.
    rewrite <- filter_filter_bool. apply filter_ext_bool. intros x. cbn.
    by rewrite andb_true_r.
Qed.

Lemma getDialoguesByScene_sorted_witness :
  Forall (numbered no_number)
    (CSVManager.findData "dialogues" (of_scene no_number (Int 1)) dialogues0)
  /\ dialogue_id no_number
       <$> CSVManager.getDialoguesByScene no_number (Int 1) dialogues0
     = [1; 1; 3]
  /\ forall i j a b,
       (i < j)%nat ->
       CSVManager.getDialoguesByScene no_number (Int 1) dialogues0 !! i = Some a ->
       CSVManager.getDialoguesByScene no_number (Int 1) dialogues0 !! j = Some b ->
       dialogue_id no_number a <= dialogue_id no_number b.
Proof.
  assert (H : Forall (numbered no_number)
                (CSVManager.findData "dialogues" (of_scene no_number (Int 1))
                   dialogues0)).
  { apply (bool_decide_unpack _). by vm_compute. }
  split; [exact H |]. split; [vm_compute; reflexivity |].
  exact (proj1 (proj2 (getDialoguesByScene_sorted no_number (Int 1) dialogues0 H))).
Defined.

Lemma getDialogues_of_scene_witness :
  Forall (numbered no_number)
    (CSVManager.findData "dialogues" (of_scene no_number (Int 1)) dialogues0)
  /\ CSVManager.getDialogues no_number (Int 1) (Some (Int 2)) dialogues0
     = List.filter (of_char no_number (Int 2))
         (CSVManager.getDialoguesByScene no_number (Int 1) dialogues0)
  /\ dialogue_id no_number
       <$> CSVManager.getDialogues no_number (Int 1) (Some (Int 2)) dialogues0
     = [1; 3].
Proof.
  assert (H : Forall (numbered no_number)
                (CSVManager.findData "dialogues" (of_scene no_number (Int 1))
                   dialogues0)).
  { apply (bool_decide_unpack _). by vm_compute. }
  split; [exact H |]. split; [| vm_compute; reflexivity].
  exact (proj2 (getDialogues_of_scene no_number (Int 1) (Int 2) dialogues0 H)).
Defined.

Lemma cache_call_effect_lemma c m :
  match c, cache_key c with
  | Loaded _ dataKey rows, _ =>
      CSVManager.getData dataKey (cache_call c m) = Some rows
      /\ CSVManager.isDataLoaded dataKey (cache_call c m) = true
      /\ forall other,
           other <> dataKey ->
           CSVManager.getData other (cache_call c m)
           = CSVManager.getData other m
           /\ CSVManager.isDataLoaded other (cache_call c m)
              = CSVManager.isDataLoaded other m
  | Cleared _, Some dataKey =>
      CSVManager.getData dataKey (cache_call c m) = None
      /\ CSVManager.isDataLoaded dataKey (cache_call c m) = false
      /\ forall other,
           other <> dataKey ->
           CSVManager.getData other (cache_call c m)
           = CSVManager.getData other m
           /\ CSVManager.isDataLoaded other (cache_call c m)
              = CSVManager.isDataLoaded other m
  | Cleared _, None =>
      (forall dataKey,
         CSVManager.getData dataKey (cache_call c m) = None
         /\ CSVManager.isDataLoaded dataKey (cache_call c m) = false)
      /\ CSVManager.isAllDataLoaded (cache_call c m) = false
  end.
Proof.
  destruct c as [filename dataKey rows|arg]; cbn.
  - unfold CSVManager.getData, CSVManager.isDataLoaded, CSVManager.complete.
    cbn. rewrite !lookup_insert_eq. split; [done | split; [done |]].
    intros other Hne. by rewrite !lookup_insert_ne.
  - unfold CSVManager.clearCache.
    destruct (CSVManager.given arg) eqn:G.
    + destruct arg as [k|]; [| done]. cbn.
      unfold CSVManager.getData, CSVManager.isDataLoaded. cbn.
      rewrite !lookup_delete_eq. split; [done | split; [done |]].
      intros other Hne. by rewrite !lookup_delete_ne.
    + by split.
Qed.

(** X25. What a call on the cache does to each table. Loading stores the
    rows under the key, replacing what was there, and marks the key as
    loaded; clearing one key removes its table and its mark; both leave
    every other key as it was. Clearing without a key, or with the empty
    string, removes every table and every mark. *)
Theorem cache_call_effect c m :
  match c, cache_key c with
  | Loaded _ dataKey rows, _ =>
      CSVManager.getData dataKey (cache_call c m) = Some rows
      /\ CSVManager.isDataLoaded dataKey (cache_call c m) = true
      /\ forall other,
           other <> dataKey ->
           CSVManager.getData other (cache_call c m)
           = CSVManager.getData other m
           /\ CSVManager.isDataLoaded other (cache_call c m)
              = CSVManager.isDataLoaded other m
  | Cleared _, Some dataKey =>
      CSVManager.getData dataKey (cache_call c m) = None
      /\ CSVManager.isDataLoaded dataKey (cache_call c m) = false
      /\ forall other,
           other <> dataKey ->
           CSVManager.getData other (cache_call c m)
           = CSVManager.getData other m
           /\ CSVManager.isDataLoaded other (cache_call c m)
              = CSVManager.isDataLoaded other m
  | Cleared _, None =>
      (forall dataKey,
         CSVManager.getData dataKey (cache_call c m) = None
         /\ CSVManager.isDataLoaded dataKey (cache_call c m) = false)
      /\ CSVManager.isAllDataLoaded (cache_call c m) = false
  end.
Proof. apply cache_call_effect_lemma. Qed.

Lemma cache_call_coherent c m :
  (forall k, CSVManager.isDataLoaded k m = true
             <-> is_Some (CSVManager.getData k m)) ->
  forall k, CSVManager.isDataLoaded k (cache_call c m) = true
            <-> is_Some (CSVManager.getData k (cache_call c m)).
Proof.
  intros H k. pose proof (cache_call_effect_lemma c m) as E.
  destruct c as [filename dataKey rows|arg].
  - cbn [cache_key] in E. destruct E as (Hd & Hl & Ho).
    destruct (decide (k = dataKey)) as [->|Hk].
    + rewrite Hd, Hl. split; [by eauto | done].
    + destruct (Ho k Hk) as [-> ->]. apply H.
  - destruct (cache_key (Cleared arg)) as [dataKey|].
    + destruct E as (Hd & Hl & Ho).
      destruct (decide (k = dataKey)) as [->|Hk].
      * rewrite Hd, Hl. split; [done | by intros []].
      * destruct (Ho k Hk) as [-> ->]. apply H.
    + destruct E as [E _]. destruct (E k) as [-> ->].
      split; [done | by intros []].
Qed.

Lemma cache_calls_snoc cs c m :
  cache_calls (cs ++ [c]) m = cache_call c (cache_calls cs m).
Proof. unfold cache_calls. by rewrite foldl_snoc. Qed.

(** X26. In a cache reached from the empty one by any sequence of loads
    and clears, a key is marked as loaded exactly when its table is there.
    When no call of the sequence clears, a key loaded by some call stays
    loaded, so once each of the nine required tables has been loaded
    [isAllDataLoaded] is true. *)
Theorem cache_calls_loaded cs :
  (forall k,
     CSVManager.isDataLoaded k (cache_calls cs CSVManager.constructor) = true
     <-> is_Some (CSVManager.getData k (cache_calls cs CSVManager.constructor)))
  /\ ((forall c, c ∈ cs -> exists f k rows, c = Loaded f k rows) ->
      (forall k, k ∈ CSVManager.requiredData ->
                 exists f rows, Loaded f k rows ∈ cs) ->
      CSVManager.isAllDataLoaded (cache_calls cs CSVManager.constructor) = true).
Proof.
  split.
  - induction cs as [|c cs IH] using rev_ind.
    + intros k. cbn. split; [done | by intros []].
    + rewrite cache_calls_snoc. by apply cache_call_coherent.
  - intros Hload Hreq. unfold CSVManager.isAllDataLoaded.
    apply forallb_forall. intros k Hk. apply list_elem_of_In in Hk.
    destruct (Hreq k Hk) as (f & rows & Hin). clear Hreq Hk.
    induction cs as [|c cs IH] using rev_ind; [by apply elem_of_nil in Hin |].
    rewrite cache_calls_snoc.
    assert (Hc : exists f' k' rows', c = Loaded f' k' rows').
    { apply Hload. apply elem_of_app. right. by apply list_elem_of_singleton. }
    destruct Hc as (f' & k' & rows' & ->).
    pose proof (cache_call_effect_lemma (Loaded f' k' rows')
                  (cache_calls cs CSVManager.constructor)) as E.
    cbn [cache_key] in E. destruct E as (_ & Hl & Ho).
    destruct (decide (k = k')) as [->|Hk]; [done |].
    destruct (Ho k Hk) as [_ ->]. apply IH.
    + intros c Hc. apply Hload. apply elem_of_app. by left.
    + apply elem_of_app in Hin as [Hin|Hin]; [done |].
      apply list_elem_of_singleton in Hin. by injection Hin as _ -> _.
Qed.

Lemma first_missing_spec keys m :
  match App.first_missing keys m with
  | Some k =>
      exists before after,
        keys = before ++ k :: after /\ App.missing k m = true
        /\ Forall (fun k' => App.missing k' m = false) before
  | None => Forall (fun k' => App.missing k' m = false) keys
  end.
Proof.
  induction keys as [|k keys IH]; [by cbn |]. cbn.
  destruct (App.missing k m) eqn:E.
  - by exists [], keys.
  - destruct (App.first_missing keys m) as [k'|].
    + destruct IH as (b & a & -> & ? & ?). exists (k :: b), a.
      repeat split; [done |]. by constructor.
    + by constructor.
Qed.

Lemma missing_false k m :
  App.missing k m = false
  <-> exists row rows, CSVManager.getData k m = Some (row :: rows).
Proof.
  unfold App.missing. destruct (CSVManager.getData k m) as [[|r rows]|].
  - split; [done | by intros (? & ? & ?)].
  - split; [by eauto | done].
  - split; [done | by intros (? & ? & ?)].
Qed.

(** X27. [validateGameData] returns normally exactly when each of the
    tables characters, scenes, dialogues and mahjong_tiles is there with
    at least one row; it then writes one line to the console and changes
    nothing else. Otherwise it throws for the first of the four, in that
    order, that is absent or empty. A table loaded with no rows counts as
    missing, although [isDataLoaded] holds for it. *)
Theorem validateGameData_first_missing app :
  match App.validateGameData app with
  | inr app' =>
      (forall k, k ∈ App.requiredData ->
         exists row rows,
           CSVManager.getData k (App.csvManager app) = Some (row :: rows))
      /\ app' = App.mk (App.gameState app) (App.csvManager app)
                  (App.localStorage app)
                  (App.log app ++ [(LevelLog, MsgDataValidated)])
  | inl error =>
      exists before k after,
        App.requiredData = before ++ k :: after
        /\ error = MissingData k
        /\ (CSVManager.getData k (App.csvManager app) = None
            \/ CSVManager.getData k (App.csvManager app) = Some [])
        /\ forall k', k' ∈ before ->
             exists row rows,
               CSVManager.getData k' (App.csvManager app) = Some (row :: rows)
  end
  /\ forall f k m,
       k ∈ App.requiredData ->
       CSVManager.isDataLoaded k (CSVManager.complete f k [] m) = true
       /\ exists error,
            App.validateGameData
              (App.mk (App.gameState app) (CSVManager.complete f k [] m)
                 (App.localStorage app) (App.log app))
            = inl error.
Proof.
  split.
  - unfold App.validateGameData.
    pose proof (first_missing_spec App.requiredData (App.csvManager app)) as H.
    destruct (App.first_missing App.requiredData (App.csvManager app)) as [k|].
    + destruct H as (b & a & Hk & Hm & Hb). exists b, k, a.
      repeat split; [done | |].
      * unfold App.missing in Hm.
        destruct (CSVManager.getData k (App.csvManager app)) as [[|]|];
          by auto.
      * intros k' Hk'. apply missing_false.
        by apply (proj1 (Forall_forall _ _) Hb).
    + split; [| done]. intros k Hk. apply missing_false.
      by apply (proj1 (Forall_forall _ _) H).
  - intros f k m Hk. split.
    + unfold CSVManager.isDataLoaded, CSVManager.complete. cbn.
      by rewrite lookup_insert_eq.
    + unfold App.validateGameData. cbn [App.csvManager].
      pose proof (first_missing_spec App.requiredData
                    (CSVManager.complete f k [] m)) as H.
      destruct (App.first_missing App.requiredData
                  (CSVManager.complete f k [] m)); [by eauto |].
      pose proof (proj1 (Forall_forall _ _) H k Hk) as Hm.
      unfold App.missing, CSVManager.getData, CSVManager.complete in Hm.
      cbn in Hm. by rewrite lookup_insert_eq in Hm.
Qed.

(** X28. [getTiles] treats an empty string like an argument left out: with
    neither a type nor a suit given it returns the whole table, or the
    empty array when the table is not loaded. With both given it returns
    the rows of the suit among those it returns for the type alone, and
    every row it returns for a type has that very string in [tile_type].
    In every case the result is a part of the table, in its order. *)
Theorem getTiles_filters tileType suit m :
  (CSVManager.given tileType = false ->
   CSVManager.given suit = false ->
   CSVManager.getTiles tileType suit m
   = default [] (CSVManager.getData "mahjong_tiles" m))
  /\ (forall t s,
        t <> "" -> s <> "" ->
        CSVManager.getTiles (Some t) (Some s) m
        = List.filter
            (fun item => CSVManager.strict_eq (item !! "suit") s)
            (CSVManager.getTiles (Some t) None m))
  /\ (forall t row,
        t <> "" -> row ∈ CSVManager.getTiles (Some t) suit m ->
        row !! "tile_type" = Some (CellStr t))
  /\ sublist (CSVManager.getTiles tileType suit m)
       (default [] (CSVManager.getData "mahjong_tiles" m)).
Proof.
  assert (Hsub : forall (p : Row -> bool) l, sublist (List.filter p l) l).
  { intros p l. induction l as [|x l IH]; [done |]. cbn.
    destruct (p x); by constructor. }
  assert (Hg : forall t, t <> "" -> CSVManager.given (Some t) = true).
  { intros t Ht. cbn. by rewrite bool_decide_eq_false_2. }
  split; [| split; [| split]].
  - intros Ht Hs. unfold CSVManager.getTiles. by rewrite Ht, Hs.
  - intros t s Ht Hs. unfold CSVManager.getTiles.
    rewrite (Hg t Ht), (Hg s Hs). cbn [CSVManager.given app length].
    rewrite !bool_decide_eq_false_2 by done.
    unfold CSVManager.findData.
    destruct (CSVManager.getData "mahjong_tiles" m) as [rows|]; [| done].
    rewrite <- filter_filter_bool. apply filter_ext_bool. intros x. cbn.
    by rewrite !andb_true_r.
  - intros t row Ht Hin. unfold CSVManager.getTiles in Hin.
    rewrite (Hg t Ht) in Hin.
    rewrite bool_decide_eq_false_2 in Hin by (by destruct (CSVManager.given suit)).
    unfold CSVManager.findData in Hin.
    destruct (CSVManager.getData "mahjong_tiles" m) as [rows|];
      [| by apply elem_of_nil in Hin].
    apply list_elem_of_In, filter_In in Hin as [_ Hp].
    cbn in Hp. apply andb_true_iff in Hp as [Hp _].
    unfold CSVManager.strict_eq in Hp.
    destruct (row !! "tile_type") as [[]|]; try done.
    by case_bool_decide; subst.
  - unfold CSVManager.getTiles.
    case_bool_decide; [done |]. unfold CSVManager.findData.
    destruct (CSVManager.getData "mahjong_tiles" m); [apply Hsub | done].
Qed.
